(** * Ostap: special functions of MoreMath and two-body kinematics

    A shallow embedding of the numerical routines of [Ostap::Math]
    (MoreMath.cpp) and of the kinematical functions of
    [Ostap::Kinematics] (Kinematics.cpp), with the properties their
    specification states and further ones that the code shows.

    Number model.  A C++ [double] or [long double] is read as an
    extended real [fp]: a finite real, one of the two infinities, or
    NaN.  Arithmetic on finite values is exact (no rounding, no
    overflow); the special values follow IEEE 754, and a zero divisor
    is read as +0, so that [x/0] is [+inf], [-inf] or NaN by the sign
    of [x].  Machine integers are [Z], with the wrap-around of the
    16-bit loop counter written out. *)

From Stdlib Require Import Reals Lra Lia ZArith List Bool Psatz.
Import ListNotations.

Local Open Scope R_scope.

(** ** Extended reals *)

Inductive fp : Type :=
| Fin (r : R)
| PInf
| NInf
| NaN.

Definition Rltb (a b : R) : bool := if Rlt_dec a b then true else false.
Definition Reqb (a b : R) : bool := if Req_dec_T a b then true else false.

Definition fneg (x : fp) : fp :=
  match x with
  | Fin r => Fin (- r)
  | PInf => NInf
  | NInf => PInf
  | NaN => NaN
  end.

Definition fabs (x : fp) : fp :=
  match x with
  | Fin r => Fin (Rabs r)
  | PInf | NInf => PInf
  | NaN => NaN
  end.

Definition fadd (x y : fp) : fp :=
  match x, y with
  | NaN, _ | _, NaN => NaN
  | Fin a, Fin b => Fin (a + b)
  | PInf, NInf | NInf, PInf => NaN
  | PInf, _ | _, PInf => PInf
  | NInf, _ | _, NInf => NInf
  end.

Definition fsub (x y : fp) : fp := fadd x (fneg y).

(** Infinity times a finite value: the sign of the finite factor
    decides, and infinity times zero is NaN. *)
Definition inf_times (pos : bool) (r : R) : fp :=
  if Rltb 0 r then (if pos then PInf else NInf)
  else if Rltb r 0 then (if pos then NInf else PInf)
  else NaN.

Definition fmul (x y : fp) : fp :=
  match x, y with
  | NaN, _ | _, NaN => NaN
  | Fin a, Fin b => Fin (a * b)
  | PInf, Fin b | Fin b, PInf => inf_times true b
  | NInf, Fin b | Fin b, NInf => inf_times false b
  | PInf, PInf | NInf, NInf => PInf
  | PInf, NInf | NInf, PInf => NInf
  end.

(** Division; the zero divisor is +0. *)
Definition fdiv (x y : fp) : fp :=
  match x, y with
  | NaN, _ | _, NaN => NaN
  | Fin a, Fin b =>
      if Reqb b 0 then inf_times true a else Fin (a / b)
  | Fin _, (PInf | NInf) => Fin 0
  | PInf, Fin b => if Rltb b 0 then NInf else PInf
  | NInf, Fin b => if Rltb b 0 then PInf else NInf
  | (PInf | NInf), (PInf | NInf) => NaN
  end.

(** Comparisons; any comparison with NaN is false. *)
Definition flt (x y : fp) : bool :=
  match x, y with
  | NaN, _ | _, NaN => false
  | Fin a, Fin b => Rltb a b
  | NInf, NInf | PInf, _ => false
  | NInf, _ => true
  | Fin _, PInf => true
  | Fin _, NInf => false
  end.

Definition fgt (x y : fp) : bool := flt y x.

Definition feq (x y : fp) : bool :=
  match x, y with
  | Fin a, Fin b => Reqb a b
  | PInf, PInf | NInf, NInf => true
  | _, _ => false
  end.

Definition fle (x y : fp) : bool := flt x y || feq x y.

Definition of_Z (z : Z) : fp := Fin (IZR z).

(** [std::ldexp (x, e)]: [x * 2^e], exact. *)
Definition ldexp (x : fp) (e : Z) : fp := fmul x (Fin (powerRZ 2 e)).

(** [std::pow (x, n)] for a non-negative integer exponent;
    [pow (x, 0)] is 1 for every [x], NaN included. *)
Fixpoint fpow (x : fp) (n : nat) : fp :=
  match n with
  | O => Fin 1
  | S n' => fmul x (fpow x n')
  end.

(** [std::exp]. *)
Definition fexp (x : fp) : fp :=
  match x with
  | Fin r => Fin (exp r)
  | PInf => PInf
  | NInf => Fin 0
  | NaN => NaN
  end.

(** [std::expm1]. *)
Definition fexpm1 (x : fp) : fp :=
  match x with
  | Fin r => Fin (exp r - 1)
  | PInf => PInf
  | NInf => Fin (-1)
  | NaN => NaN
  end.

(** [std::sqrt]; a negative argument is a domain error. *)
Definition fsqrt (x : fp) : fp :=
  match x with
  | Fin r => if Rltb r 0 then NaN else Fin (sqrt r)
  | PInf => PInf
  | NInf | NaN => NaN
  end.

(** [std::max (a, b)] is [(a < b) ? b : a]. *)
Definition fmax (a b : fp) : fp := if flt a b then b else a.

(** [std::min (a, b)] is [(b < a) ? b : a]. *)
Definition fmin (a b : fp) : fp := if flt b a then b else a.

(** ** Constants of the anonymous namespace (MoreMath.cpp, 56-67) *)

(** [std::numeric_limits<double>::max ()]. *)
Definition DBL_MAX : R := IZR (2 ^ 1024 - 2 ^ 971).

(** [std::numeric_limits<double>::epsilon ()]. *)
Definition DBL_EPSILON : R := powerRZ 2 (-52).

(** [std::numeric_limits<long double>::epsilon ()], 80-bit format. *)
Definition LDBL_EPSILON : R := powerRZ 2 (-63).

Definition s_infinity : fp := Fin (0.9 * DBL_MAX).
Definition s_imax : Z := (-32)%Z.
Definition s_large : fp := Fin (powerRZ 2 (- s_imax)).
Definition s_epsilon : fp :=
  fmin (Fin DBL_EPSILON) (fmul (Fin 10000) (Fin LDBL_EPSILON)).

(** [GSL_LOG_DBL_MIN] and [GSL_LOG_DBL_MAX] of gsl_machine.h. *)
Definition GSL_LOG_DBL_MIN : R := - (70839641853226408 / 100000000000000).
Definition GSL_LOG_DBL_MAX : R := 70978271289338397 / 100000000000000.

(** ** Continued fractions (MoreMath.cpp, 413-583) *)

(** The four running convergents of the forward recurrence. *)
Record cf_state : Type := mk_cf {
  hm1 : fp;
  km1 : fp;
  h0 : fp;
  k0 : fp
}.

(** The body of the [if] that follows every step:
    all four values are multiplied by [2^s_imax]. *)
Definition cf_rescale (st : cf_state) : cf_state :=
  {| hm1 := ldexp (hm1 st) s_imax;
     km1 := ldexp (km1 st) s_imax;
     h0 := ldexp (h0 st) s_imax;
     k0 := ldexp (k0 st) s_imax |}.

(** [std::abs (hp1) > s_large || std::abs (kp1) > s_large]. *)
Definition cf_large (hp1 kp1 : fp) : bool :=
  fgt (fabs hp1) s_large || fgt (fabs kp1) s_large.

(** One pass of the loop of the two-sequence form:
    [hp1 = b * h0 + a * hm1], [kp1 = b * k0 + a * km1]. *)
Definition _simple_cf_ab_step (a b : fp) (st : cf_state) : cf_state :=
  let hp1 := fadd (fmul b (h0 st)) (fmul a (hm1 st)) in
  let kp1 := fadd (fmul b (k0 st)) (fmul a (km1 st)) in
  let st1 := {| hm1 := h0 st; km1 := k0 st; h0 := hp1; k0 := kp1 |} in
  if cf_large hp1 kp1 then cf_rescale st1 else st1.







Definition _simple_cf_b_init : cf_state :=
  {| hm1 := Fin 1; km1 := Fin 0; h0 := Fin 0; k0 := Fin 1 |}.

(** One pass of the loop of the [b]-only form:
    [hp1 = h0 + b * hm1], [kp1 = k0 + b * km1]. *)
Definition _simple_cf_b_step (st : cf_state) (b : fp) : cf_state :=
  let hp1 := fadd (h0 st) (fmul b (hm1 st)) in
  let kp1 := fadd (k0 st) (fmul b (km1 st)) in
  let st1 := {| hm1 := h0 st; km1 := k0 st; h0 := hp1; k0 := kp1 |} in
  if cf_large hp1 kp1 then cf_rescale st1 else st1.

(** [_simple_cf_b_ (begin, end)]: [b_0 / (1 + b_1 / (1 + ...))]. *)
Definition _simple_cf_b_ (l : list fp) : fp :=
  match l with
  | [] => Fin 0
  | _ :: _ =>
      let st := fold_left _simple_cf_b_step l _simple_cf_b_init in
      fdiv (h0 st) (k0 st)
  end.

(** The loop of the two-sequence form runs while both sequences have
    an element left. *)
Fixpoint _simple_cf_ab_loop (a b : list fp) (st : cf_state) : cf_state :=
  match a, b with
  | x :: a', y :: b' => _simple_cf_ab_loop a' b' (_simple_cf_ab_step x y st)
  | _, _ => st
  end.

(** [_simple_cf_ (ab, ae, bb, be)]:
    [a_1 / (b_1 + a_2 / (b_2 + ...))]. *)
Definition _simple_cf_ab (a b : list fp) : fp :=
  match a, b with
  | [], _ | _, [] => Fin 0
  | _, _ =>
      let st := _simple_cf_ab_loop a b _simple_cf_b_init in
      fdiv (h0 st) (k0 st)
  end.


(** [Ostap::Math::continued_fraction]. *)
Definition continued_fraction (a b : list fp) : fp :=
  if Nat.eqb (length a) (length b) then _simple_cf_ab a b
  else if Nat.eqb (length a + 1) (length b)
       then fadd (hd (Fin 0) b) (_simple_cf_ab a (tl b))
       else NaN.

(** ** Two-body phase space (Kinematics.cpp, 50-54 and 882-899) *)

(** [Ostap::Kinematics::triangle]. *)
Definition triangle (a b c : fp) : fp :=
  fsub (fsub (fsub (fadd (fadd (fmul a a) (fmul b b)) (fmul c c))
                   (fmul (fmul (Fin 2) a) b))
             (fmul (fmul (Fin 2) b) c))
       (fmul (fmul (Fin 2) a) c).

Definition s_inv8pi : fp := fdiv (Fin 1) (fmul (Fin 8) (Fin PI)).

(** [Ostap::Kinematics::phasespace2]. *)
Definition phasespace2 (x m1 m2 : fp) : fp :=
  let xm1 := fmax (Fin 0) m1 in
  let xm2 := fmax (Fin 0) m2 in
  if fle x (fadd xm1 xm2) then Fin 0
  else
    let msq := fmul x x in
    let lam := triangle msq (fmul xm1 xm1) (fmul xm2 xm2) in
    if flt (Fin 0) lam
    then fdiv (fmul s_inv8pi (fsqrt lam)) msq
    else Fin 0.

(** [Ostap::Kinematics::phasespace2_bk]. *)
Definition phasespace2_bk (x m1 m2 : fp) : fp :=
  let xm1 := fmax (Fin 0) m1 in
  let xm2 := fmax (Fin 0) m2 in
  if fle x (fadd xm1 xm2) then Fin 0
  else
    let msq := fmul x x in
    let lam := triangle msq (fmul xm1 xm1) (fmul xm2 xm2) in
    let s_norm := fmul (Fin 0.5) (Fin PI) in
    if flt (Fin 0) lam
    then fdiv (fmul s_norm (fsqrt lam)) msq
    else Fin 0.

(** [Ostap::Kinematics::q]. *)
Definition q (m m1 m2 : fp) : fp :=
  if fle m (fadd m1 m2) || flt m1 (Fin 0) || flt m2 (Fin 0) then Fin 0
  else
    let l := triangle (fmul m m) (fmul m1 m1) (fmul m2 m2) in
    if flt (Fin 0) l then fdiv (fmul (Fin 0.5) (fsqrt l)) m else Fin 0.



(** *** Three-vectors (ROOT::Math::DisplacementVector3D) *)

Record Vector3D : Type := mk_vec3 {
  vX : fp;
  vY : fp;
  vZ : fp
}.


Definition Mag2 (a : Vector3D) : fp :=
  fadd (fadd (fmul (vX a) (vX a)) (fmul (vY a) (vY a)))
       (fmul (vZ a) (vZ a)).


(** [a + b], [a - b] and [a * c] for a scalar [c]. *)
Definition vadd (a b : Vector3D) : Vector3D :=
  {| vX := fadd (vX a) (vX b);
     vY := fadd (vY a) (vY b);
     vZ := fadd (vZ a) (vZ b) |}.






(** [Ostap::Kinematics::armenterosPodolanskiX]. *)
Definition armenterosPodolanskiX (d1 d2 : Vector3D) : fp :=
  fdiv (fsub (Mag2 d1) (Mag2 d2)) (Mag2 (vadd d1 d2)).

(** *** Four-vectors (ROOT::Math::LorentzVector) *)

Record LorentzVector : Type := mk_vec4 {
  lX : fp;
  lY : fp;
  lZ : fp;
  lE : fp
}.

(** [p.Dot (q)] and [p.M2 ()], in the metric (-,-,-,+). *)
Definition Dot4 (p q : LorentzVector) : fp :=
  fsub (fsub (fsub (fmul (lE p) (lE q)) (fmul (lX p) (lX q)))
             (fmul (lY p) (lY q)))
       (fmul (lZ p) (lZ q)).

Definition M2 (p : LorentzVector) : fp :=
  fsub (fsub (fsub (fmul (lE p) (lE p)) (fmul (lX p) (lX p)))
             (fmul (lY p) (lY p)))
       (fmul (lZ p) (lZ p)).

(** [std::numeric_limits<float>::max ()] and the sentinel
    [s_INVALID] of Kinematics.cpp. *)
Definition FLT_MAX : R := IZR (2 ^ 128 - 2 ^ 104).
Definition s_INVALID : fp := Fin (- 0.9 * FLT_MAX).



(** [Ostap::Kinematics::euclidianNorm2]. *)
Definition euclidianNorm2 (vct : LorentzVector) : fp :=
  fadd (fadd (fadd (fmul (lE vct) (lE vct)) (fmul (lX vct) (lX vct)))
             (fmul (lY vct) (lY vct)))
       (fmul (lZ vct) (lZ vct)).

(** [Ostap::Kinematics::decayAngle (P, Q, D)]. *)
Definition decayAngle (P Q D : LorentzVector) : fp :=
  let pd := Dot4 P D in
  let pq := Dot4 P Q in
  let qd := Dot4 Q D in
  let mq2 := M2 Q in
  let mp2 := M2 P in
  let md2 := M2 D in
  let value :=
    fmul (fsub (fmul pq pq) (fmul mq2 mp2))
         (fsub (fmul qd qd) (fmul mq2 md2)) in
  if fle (Fin 0) value
  then fdiv (fsub (fmul pd mq2) (fmul pq qd)) (fsqrt value)
  else s_INVALID.

(** *** Gram determinants of scalar products *)

Section Gram.

(** [p * q], the scalar product of two four-vectors. *)
Variable prod : LorentzVector -> LorentzVector -> fp.

(** [Ostap::Kinematics::Gram::G], two pairs of vectors. *)
Definition Gram_G2 (p1 p2 q1 q2 : LorentzVector) : fp :=
  let a11 := prod p1 q1 in
  let a12 := prod p1 q2 in
  let a21 := prod p2 q1 in
  let a22 := prod p2 q2 in
  fsub (fmul a11 a22) (fmul a12 a21).

(** [Ostap::Kinematics::Gram::G], three pairs of vectors. *)
Definition Gram_G3 (p1 p2 p3 q1 q2 q3 : LorentzVector) : fp :=
  let a11 := prod p1 q1 in
  let a12 := prod p1 q2 in
  let a13 := prod p1 q3 in
  let a21 := prod p2 q1 in
  let a22 := prod p2 q2 in
  let a23 := prod p2 q3 in
  let a31 := prod p3 q1 in
  let a32 := prod p3 q2 in
  let a33 := prod p3 q3 in
  fsub (fsub (fsub (fadd (fadd
    (fmul (fmul a11 a22) a33)
    (fmul (fmul a12 a23) a21))
    (fmul (fmul a13 a32) a21))
    (fmul (fmul a13 a22) a31))
    (fmul (fmul a21 a12) a33))
    (fmul (fmul a11 a23) a32).

(** [Ostap::Kinematics::Gram::Delta], two vectors. *)
Definition Gram_Delta2 (p1 p2 : LorentzVector) : fp :=
  let p1p2 := prod p1 p2 in
  fsub (fmul (fmul (M2 p1) (Fin 1)) (M2 p2)) (fmul p1p2 p1p2).

End Gram.

(** The determinant of a 3 x 3 matrix, by the rule of Sarrus. *)
Definition det3 (a11 a12 a13 a21 a22 a23 a31 a32 a33 : R) : R :=
  a11 * a22 * a33 + a12 * a23 * a31 + a13 * a21 * a32
  - a13 * a22 * a31 - a12 * a21 * a33 - a11 * a23 * a32.

(** ** Helpers declared in Ostap/Math.h

    The zero predicate, the integer test, the rounding to the nearest
    integer and the closed forms [Pochhammer_<N>] are declared in
    headers of the library.  The functions of MoreMath.cpp take them
    as parameters below; these are the instances that exact arithmetic
    gives. *)

(** Modelled from the spec: the zero predicate [Zero<double>], which
    in exact arithmetic holds of 0 alone. *)
Definition exact_zero (x : fp) : bool := feq x (Fin 0).

(** Modelled from the spec: [Ostap::Math::round], the nearest
    integer. *)
Definition nearest (x : fp) : Z :=
  match x with
  | Fin r => (up (r + / 2) - 1)%Z
  | _ => 0%Z
  end.

(** Modelled from the spec: [Ostap::Math::isint], the test that a
    value is an integer. *)
Definition exact_isint (x : fp) : bool :=
  match x with
  | Fin r => Reqb (IZR (nearest x)) r
  | _ => false
  end.

(** The rising factorial [x (x+1) ... (x+n-1)], as a direct product. *)
Fixpoint rising (x : R) (n : nat) : R :=
  match n with
  | O => 1
  | S n' => rising x n' * (x + INR n')
  end.

(** Modelled from the spec: [Pochhammer_<N>::evaluate], the closed
    form of the product for a fixed [N]. *)
Definition product_form (N : Z) (x : fp) : fp :=
  match x with
  | Fin r => Fin (rising r (Z.to_nat N))
  | _ => NaN
  end.


(** The derivative of the rising factorial, by the product rule. *)
Fixpoint rising_deriv (x : R) (n : nat) : R :=
  match n with
  | O => 0
  | S n' => rising_deriv x n' * (x + INR n') + rising x n'
  end.

(** The falling factorial [x (x-1) ... (x-n+1)]. *)
Fixpoint falling (x : R) (n : nat) : R :=
  match n with
  | O => 1
  | S n' => falling x n' * (x - INR n')
  end.







(** Vectors with finite components. *)
Definition vec3 (x y z : R) : Vector3D := mk_vec3 (Fin x) (Fin y) (Fin z).

Definition vec4 (x y z e : R) : LorentzVector :=
  mk_vec4 (Fin x) (Fin y) (Fin z) (Fin e).


(** Modelled from the spec: [Pochhammer_<N>::value_with_derivative],
    the closed forms of the product and of its derivative. *)
Definition product_form_vd (N : Z) (x : fp) : fp * fp :=
  match x with
  | Fin r => (Fin (rising r (Z.to_nat N)), Fin (rising_deriv r (Z.to_nat N)))
  | _ => (NaN, NaN)
  end.

(** [_factorial_d_] (MoreMath.cpp, 70-79). *)
Fixpoint _factorial_d_ (N : nat) : fp :=
  match N with
  | 0%nat => Fin 1
  | 1%nat => Fin 1
  | 2%nat => Fin 2
  | 3%nat => Fin 6
  | 4%nat => Fin 24
  | S N' => fmul (of_Z (Z.of_nat N)) (_factorial_d_ N')
  end.

(** [GSL_EDOM] of gsl_errno.h. *)
Definition GSL_EDOM : Z := 1%Z.

Section MoreMath.

(** [Ostap::Math::Zero<double>], the instance [s_zero]. *)
Variable s_zero : fp -> bool.
(** [Ostap::Math::isint]. *)
Variable isint : fp -> bool.
(** [Ostap::Math::round], the integer it returns. *)
Variable round : fp -> Z.
(** [std::lgamma] and [std::tgamma]. *)
Variable lgamma : fp -> fp.
Variable tgamma : fp -> fp.
(** [Ostap::Math::Pochhammer_<N>::evaluate], for [N] from 2 to 16. *)
Variable Pochhammer_ : Z -> fp -> fp.

(** *** Partial sums of the exponential (MoreMath.cpp, 94-129) *)




(** *** Reduced exponent (MoreMath.cpp, 142-226) *)

(** [Ostap::Math::exprel]. *)
Definition exprel (x : fp) : fp :=
  if flt x (Fin GSL_LOG_DBL_MIN) then fdiv (Fin (-1)) x
  else if fgt x (Fin GSL_LOG_DBL_MAX) then s_infinity
  else if fgt (Fin 1) (fabs x) then fdiv (fexpm1 x) x
  else fdiv (fsub (fexp x) (Fin 1)) x.

(** The loop of [_exp_rel_N_], [count] passes left, the next one
    with the counter [n]. *)
Fixpoint _exp_rel_N_loop (count : nat) (x : fp) (N n : Z) (st : cf_state)
  : cf_state :=
  match count with
  | O => st
  | S count' =>
      let an :=
        if (0 =? n mod 2)%Z
        then fdiv (fmul x (of_Z n)) (Fin 2)
        else fmul (fneg x) (of_Z (N + (n - 1) / 2)) in
      let bn := of_Z (n + N) in
      let hp1 := fadd (fmul bn (h0 st)) (fmul an (hm1 st)) in
      let kp1 := fadd (fmul bn (k0 st)) (fmul an (km1 st)) in
      let st1 := {| hm1 := h0 st; km1 := k0 st; h0 := hp1; k0 := kp1 |} in
      let st2 := if cf_large hp1 kp1 then cf_rescale st1 else st1 in
      let delta :=
        fsub (fdiv (fdiv (hm1 st2) (km1 st2)) (fdiv (h0 st2) (k0 st2)))
             (Fin 1) in
      if (0 =? n mod 5)%Z && fle (fabs delta) (fmul (Fin 2) s_epsilon)
      then st2
      else _exp_rel_N_loop count' x N (n + 1)%Z st2
  end.

Definition _exp_rel_N_ (x : fp) (N : Z) : fp :=
  let st := _exp_rel_N_loop (Z.to_nat 99999) x N 2%Z _simple_cf_b_init in
  let result := fdiv (h0 st) (k0 st) in
  fdiv (Fin 1)
       (fsub (Fin 1) (fdiv x (fadd (of_Z (N + 1)) result))).

(** [Ostap::Math::exp_rel_N]. *)
Definition exp_rel_N (x : fp) (N : Z) : fp :=
  if (0 =? N)%Z then fexp x
  else if (1 =? N)%Z then exprel x
  else if s_zero x then Fin 1
  else _exp_rel_N_ x N.

(** *** Regularized incomplete gamma function (MoreMath.cpp, 241-349) *)

Fixpoint _gamma_star_loop (count : nat) (a x : fp) (n : Z) (t r : fp)
  : fp :=
  match count with
  | O => r
  | S count' =>
      let t1 := fmul t (fneg x) in
      let t2 := fdiv t1 (of_Z n) in
      if feq (Fin 0) (fadd a (of_Z n)) then r
      else
        let r1 := fadd r (fdiv t2 (fadd a (of_Z n))) in
        if fle (fabs t2) (fmul (Fin 2) s_epsilon) then r1
        else _gamma_star_loop count' a x (n + 1)%Z t2 r1
  end.

Definition _gamma_star_ (a x : fp) : fp :=
  let t := Fin 1 in
  let r := _gamma_star_loop (Z.to_nat 999999) a x 1%Z t (fdiv t a) in
  let r := fdiv r (tgamma a) in
  if flt r (fneg s_infinity) then fneg s_infinity
  else if fgt r s_infinity then s_infinity
  else r.

Fixpoint _gamma_star_2_loop (count : nat) (a x : fp) (n : Z) (t r : fp)
  : fp :=
  match count with
  | O => r
  | S count' =>
      if feq (Fin 0) (fadd a (of_Z n)) then r
      else
        let t1 := fmul t x in
        let t2 := fdiv t1 (fadd a (of_Z n)) in
        let r1 := fadd r t2 in
        if fle (fabs t2) (fmul (Fin 2) s_epsilon) then r1
        else _gamma_star_2_loop count' a x (n + 1)%Z t2 r1
  end.

Definition _gamma_star_2_ (a x : fp) : fp :=
  let t := fdiv (Fin 1) a in
  let r := _gamma_star_2_loop (Z.to_nat 999999) a x 1%Z t t in
  fdiv (fmul r (fexp (fneg x))) (tgamma a).

(** [Ostap::Math::gamma_star (double, double)]. *)
Definition gamma_star (a x : fp) : fp :=
  let series :=
    if flt (Fin 1.1) x then _gamma_star_2_ a x else _gamma_star_ a x in
  if isint a || flt (fabs (fsub a (of_Z (round a)))) (Fin 1e-4) then
    let n := round a in
    if (n <=? 0)%Z then fdiv (Fin 1) (fpow x (Z.abs_nat n))
    else series
  else series.

(** [Ostap::Math::gamma_star (int, double)]. *)
Definition gamma_star_int (n : Z) (x : fp) : fp :=
  if (n <=? 0)%Z then fdiv (Fin 1) (fpow x (Z.abs_nat n))
  else if flt (Fin 1.1) x then _gamma_star_2_ (of_Z n) x
  else _gamma_star_ (of_Z n) x.

(** *** Continued fraction, [b]-only form (MoreMath.cpp, 555-561) *)

(** [Ostap::Math::continued_fraction_b]. *)
Definition continued_fraction_b (b : list fp) : fp :=
  match b with
  | [] => Fin 0
  | b0 :: _ => if s_zero b0 then Fin 0 else _simple_cf_b_ b
  end.

(** *** Pochhammer symbol (MoreMath.cpp, 920-1056) *)

(** [( N % 2 ? -1 : 1 )]. *)
Definition parity_sign (N : Z) : fp :=
  if (N mod 2 =? 0)%Z then Fin 1 else Fin (-1).

Definition s_delta : fp := Fin 1e-8.

(** [_pochhammer_]; every call, the recursive ones included, takes one
    unit of fuel, and [None] means the fuel ran out. *)
Fixpoint _pochhammer_ (fuel : nat) (x : fp) (N : Z) : option fp :=
  match fuel with
  | O => None
  | S fuel' =>
      if (0 =? N)%Z then Some (Fin 1)
      else if (1 =? N)%Z then Some x
      else if (2 <=? N)%Z && (N <=? 16)%Z then Some (Pochhammer_ N x)
      else if s_zero x then Some (Fin 0)
      else if flt x (fsub (Fin 0.5) (of_Z N)) then
        option_map (fun p => fmul p (parity_sign N))
          (_pochhammer_ fuel' (fadd (fsub (fabs x) (of_Z N)) (Fin 1)) N)
      else
        let use_dimidation :=
          (flt (fsub (of_Z (1 - N)) s_delta) x && flt x s_delta)
          && flt (fabs (fsub x (of_Z (round x)))) s_delta in
        if (N <=? 96)%Z || use_dimidation then
          let K2 := (N / 2)%Z in
          let K1 := if (N mod 2 =? 0)%Z then K2 else (K2 + 1)%Z in
          match _pochhammer_ fuel' (ldexp x (-1)%Z) K1,
                _pochhammer_ fuel' (ldexp (fadd x (Fin 1)) (-1)%Z) K2 with
          | Some p1, Some p2 => Some (fmul (ldexp p1 K1) (ldexp p2 K2))
          | _, _ => None
          end
        else Some (fexp (fsub (lgamma (fadd x (of_Z N))) (lgamma x)))
  end.

(** [__pochhammer__]. *)
Definition __pochhammer__ (fuel : nat) (x : fp) (N : Z) : option fp :=
  if (0 =? N)%Z then Some (Fin 1)
  else if (1 =? N)%Z then Some x
  else if s_zero x then Some (Fin 0)
  else if flt (fsub (Fin 0.5) (of_Z N)) x then _pochhammer_ fuel x N
  else option_map (fun p => fmul p (parity_sign N))
         (_pochhammer_ fuel (fadd (fsub (fabs x) (of_Z N)) (Fin 1)) N).

(** [Ostap::Math::pochhammer] and [Ostap::Math::rising_factorial]. *)
Definition pochhammer (fuel : nat) (x : fp) (n : Z) : option fp :=
  __pochhammer__ fuel x n.

Definition rising_factorial (fuel : nat) (x : fp) (n : Z) : option fp :=
  __pochhammer__ fuel x n.

(** *** Integrals of powers times exponentials (MoreMath.cpp, 360-405) *)


(** [Ostap::Math::alpha_prime_N]. *)
Definition alpha_prime_N (n : Z) (x : fp) : fp :=
  let z := x in
  let np1 := of_Z (n + 1) in
  if s_zero x then fdiv (Fin 1) np1
  else fdiv (fmul (fexp (fneg z)) (_exp_rel_N_ z (n + 1))) np1.

(** [Ostap::Math::beta_N]. *)
Definition beta_N (n : Z) (x : fp) : fp :=
  if (0 =? n mod 2)%Z
  then fadd (alpha_prime_N n x) (alpha_prime_N n (fneg x))
  else fsub (alpha_prime_N n x) (alpha_prime_N n (fneg x)).

(** *** Kummer's function (MoreMath.cpp, 593-629) *)

(** [gsl_sf_hyperg_1F1_int_e]: the error code and the value. *)
Variable gsl_sf_hyperg_1F1_int_e : Z -> Z -> fp -> Z * fp.

(** [Ostap::Math::kummer]. *)
Definition kummer (a b : Z) (x : fp) : fp :=
  if (0 =? a)%Z || s_zero x then Fin 1
  else if (a =? b)%Z then
    let z := x in
    if flt (fabs x) (Fin 0.3) then fadd (fexpm1 z) (Fin 1) else fexp z
  else if (1 =? a)%Z && (a <? b)%Z then exp_rel_N x (b - 1)
  else if (a + 1 =? b)%Z then
    let gs := gamma_star_int a (fneg x) in
    fmul gs (_factorial_d_ (Z.to_nat a))
  else
    let (ierror, val) := gsl_sf_hyperg_1F1_int_e a b x in
    if (ierror =? 0)%Z then val
    else if (ierror =? GSL_EDOM)%Z then NaN
    else val.

(** *** Hyperbolic secant and the Gaussian density
        (MoreMath.cpp, 728-729 and 862-869) *)

(** [Ostap::Math::sech (double)]. *)
Definition sech (x : fp) : fp :=
  if flt (Fin 700) (fabs x) then Fin 0
  else fdiv (Fin 2) (fadd (fexp x) (fexp (fneg x))).


(** *** Pochhammer symbol with its derivative (MoreMath.cpp, 970-1076) *)

(** [gsl_sf_psi_e]: the error code and the value. *)
Variable gsl_sf_psi_e : fp -> Z * fp.

(** [Ostap::Math::psi]. *)
Definition psi (x : fp) : fp :=
  let (ierror, val) := gsl_sf_psi_e x in
  if (ierror =? 0)%Z then val
  else if (ierror =? GSL_EDOM)%Z then NaN
  else val.

(** [Ostap::Math::Pochhammer_<N>::value_with_derivative], for [N]
    from 2 to 16. *)
Variable Pochhammer_vd : Z -> fp -> fp * fp.

(** [( N % 2 ? -1 : 1 )], as the [int] it is. *)
Definition parity_int (N : Z) : Z :=
  if (N mod 2 =? 0)%Z then 1%Z else (-1)%Z.

(** [_pochhammer2_]: the value and the derivative; the fuel is
    spent as in [_pochhammer_]. *)
Fixpoint _pochhammer2_ (fuel : nat) (x : fp) (N : Z) : option (fp * fp) :=
  match fuel with
  | O => None
  | S fuel' =>
      if (0 =? N)%Z then Some (Fin 1, Fin 0)
      else if (1 =? N)%Z then Some (x, Fin 1)
      else if (2 <=? N)%Z && (N <=? 16)%Z then Some (Pochhammer_vd N x)
      else if flt x (fsub (Fin 0.5) (of_Z N)) then
        match _pochhammer2_ fuel'
                (fadd (fsub (fabs x) (of_Z N)) (Fin 1)) N with
        | Some r =>
            let s := parity_int N in
            Some (fmul (of_Z s) (fst r), fmul (of_Z (-1 * s)) (snd r))
        | None => None
        end
      else
        let use_dimidation :=
          (flt (fsub (of_Z (1 - N)) s_delta) x && flt x s_delta)
          && flt (fabs (fsub x (of_Z (round x)))) s_delta in
        if (N <=? 96)%Z || use_dimidation then
          let K2 := (N / 2)%Z in
          let K1 := if (N mod 2 =? 0)%Z then K2 else (K2 + 1)%Z in
          match _pochhammer2_ fuel' (ldexp x (-1)%Z) K1,
                _pochhammer2_ fuel' (ldexp (fadd x (Fin 1)) (-1)%Z) K2 with
          | Some r1, Some r2 =>
              Some (ldexp (fmul (fst r1) (fst r2)) N,
                    fadd (ldexp (fmul (fst r1) (snd r2)) (N - 1))
                         (ldexp (fmul (snd r1) (fst r2)) (N - 1)))
          | _, _ => None
          end
        else
          let p := fexp (fsub (lgamma (fadd x (of_Z N))) (lgamma x)) in
          Some (p, fmul p (fsub (psi (fadd x (of_Z N))) (psi x)))
  end.

(** [Ostap::Math::pochhammer_with_derivative]. *)
Definition pochhammer_with_derivative (fuel : nat) (x : fp) (n : Z)
  : option (fp * fp) :=
  _pochhammer2_ fuel x n.

(** [Ostap::Math::falling_factorial]. *)
Definition falling_factorial (fuel : nat) (x : fp) (n : Z) : option fp :=
  option_map (fun p => fmul p (parity_sign n))
    (__pochhammer__ fuel (fmul (Fin (-1)) x) n).

End MoreMath.

(** * Properties *)

(** ** Arithmetic of extended reals *)


(** Linear integer arithmetic with division and remainder by 2. *)
Ltac divlia := zify; Z.to_euclidean_division_equations; lia.

Lemma Rltb_true (a b : R) : a < b -> Rltb a b = true.
Proof. intros H. unfold Rltb. destruct (Rlt_dec a b); [reflexivity | lra]. Qed.

Lemma Rltb_false (a b : R) : ~ a < b -> Rltb a b = false.
Proof. intros H. unfold Rltb. destruct (Rlt_dec a b); [lra | reflexivity]. Qed.

Lemma Reqb_true (a b : R) : a = b -> Reqb a b = true.
Proof.
  intros H. unfold Reqb. destruct (Req_dec_T a b); [reflexivity | lra].
Qed.

Lemma Reqb_false (a b : R) : a <> b -> Reqb a b = false.
Proof.
  intros H. unfold Reqb. destruct (Req_dec_T a b); [lra | reflexivity].
Qed.






(** ** The rescaled and the plain recurrence *)







(** ** Continued fractions: shape errors and short cuts *)

Lemma continued_fraction_zero_over_zero :
  continued_fraction [Fin 0] [Fin 0] = NaN.
Proof.
  unfold continued_fraction; simpl.
  unfold _simple_cf_ab_step; simpl.
  replace (cf_large _ _) with false.
  - simpl. rewrite Reqb_true by lra.
    unfold inf_times. rewrite !Rltb_false by lra. reflexivity.
  - unfold cf_large, fgt, s_large; simpl.
    assert (0 < powerRZ 2 (- s_imax)) by (apply powerRZ_lt; lra).
    rewrite !Rltb_false; [reflexivity | |];
      replace (0 * 1 + 0 * 0) with 0 by lra;
      replace (0 * 0 + 0 * 1) with 0 by lra;
      rewrite Rabs_R0; lra.
Qed.

(** C2, as stated, fails: with two sequences of the same length the
    quotient [0/0] of the last convergents is NaN as well. *)
Lemma continued_fraction_nan_matched_lengths :
  continued_fraction [Fin 0] [Fin 0] = NaN /\
  length [Fin 0] = length [Fin 0].
Proof. split; [apply continued_fraction_zero_over_zero | reflexivity]. Qed.

(** C2, amended.  [continued_fraction] is a total function, and on two
    sequences of mismatched lengths (neither [len a = len b] nor
    [len b = len a + 1]) it returns NaN. *)
Theorem continued_fraction_mismatch (a b : list fp) :
  length a <> length b ->
  length b <> (length a + 1)%nat ->
  continued_fraction a b = NaN.
Proof.
  intros H1 H2. unfold continued_fraction.
  destruct (Nat.eqb_spec (length a) (length b)) as [E | _]; [contradiction |].
  destruct (Nat.eqb_spec (length a + 1) (length b)) as [E | _];
    [congruence | reflexivity].
Qed.

Lemma continued_fraction_mismatch_witness :
  continued_fraction [] [Fin 1; Fin 2] = NaN.
Proof.
  apply (continued_fraction_mismatch [] [Fin 1; Fin 2]); simpl; lia.
Defined.

(** C10.  [continued_fraction_b] returns 0 when the sequence is empty
    or its first coefficient is zero for [s_zero], whatever the other
    coefficients are. *)
Theorem continued_fraction_b_short_cut
  (s_zero : fp -> bool) (b : list fp) :
  b = [] \/ (exists b0 rest, b = b0 :: rest /\ s_zero b0 = true) ->
  continued_fraction_b s_zero b = Fin 0.
Proof.
  intros [-> | (b0 & rest & -> & Hz)]; [reflexivity |].
  unfold continued_fraction_b. rewrite Hz. reflexivity.
Qed.

Lemma exact_zero_0 : exact_zero (Fin 0) = true.
Proof. unfold exact_zero; simpl. apply Reqb_true. reflexivity. Qed.

Lemma continued_fraction_b_short_cut_witness :
  continued_fraction_b exact_zero [Fin 0; Fin 5; PInf] = Fin 0.
Proof.
  apply (continued_fraction_b_short_cut exact_zero [Fin 0; Fin 5; PInf]).
  right. exists (Fin 0), [Fin 5; PInf]. split; [reflexivity |].
  apply exact_zero_0.
Defined.

(** ** Reduced exponent *)

Lemma exprel_zero_over_zero : exprel (Fin 0) = NaN.
Proof.
  unfold exprel, fgt, GSL_LOG_DBL_MIN, GSL_LOG_DBL_MAX; simpl.
  rewrite Rabs_R0.
  rewrite (Rltb_false 0) by lra.
  rewrite (Rltb_false _ 0) by lra.
  rewrite (Rltb_true 0 1) by lra.
  rewrite Reqb_true by reflexivity.
  rewrite exp_0. unfold inf_times.
  rewrite !Rltb_false by lra. reflexivity.
Qed.

(** C3, at the input 0: the test [1 > |x|] sends 0 to
    [expm1 (0) / 0], and the quotient [0/0] is NaN, not 1. *)
Theorem exprel_at_zero :
  exprel (Fin 0) = fdiv (fexpm1 (Fin 0)) (Fin 0) /\
  exprel (Fin 0) = NaN /\
  exprel (Fin 0) <> Fin 1.
Proof.
  assert (H := exprel_zero_over_zero).
  split; [| split].
  - rewrite H. simpl. rewrite exp_0, Reqb_true by reflexivity.
    unfold inf_times. rewrite !Rltb_false by lra. reflexivity.
  - exact H.
  - rewrite H. discriminate.
Qed.

(** Away from zero and inside the range of [exp], [exprel] is
    [(exp x - 1) / x] on both of its branches. *)
Lemma exprel_nonzero (x : R) :
  x <> 0 -> GSL_LOG_DBL_MIN <= x <= GSL_LOG_DBL_MAX ->
  exprel (Fin x) = Fin ((exp x - 1) / x).
Proof.
  intros Hx [Hlo Hhi]. unfold exprel, fgt; simpl.
  rewrite (Rltb_false x) by lra.
  rewrite (Rltb_false _ x) by lra.
  destruct (Rltb (Rabs x) 1); simpl; rewrite Reqb_false by assumption;
    reflexivity.
Qed.

(** C4, at the input [(0, 1)]: the case [N = 1] is handed to [exprel]
    before the zero test, so that [exp_rel_N (0, 1)] is NaN, not 1. *)
Theorem exp_rel_N_at_zero_one (s_zero : fp -> bool) :
  exp_rel_N s_zero (Fin 0) 1 = NaN /\
  exp_rel_N s_zero (Fin 0) 1 <> Fin 1.
Proof.
  assert (H : exp_rel_N s_zero (Fin 0) 1 = NaN).
  { unfold exp_rel_N.
    change (0 =? 1)%Z with false. change (1 =? 1)%Z with true.
    cbv iota. apply exprel_zero_over_zero. }
  split; [exact H |]. rewrite H. discriminate.
Qed.

(** The reductions of [exp_rel_N] that do hold. *)
Lemma exp_rel_N_reductions (s_zero : fp -> bool) (x : fp) (N : Z) :
  exp_rel_N s_zero x 0 = fexp x /\
  exp_rel_N s_zero x 1 = exprel x /\
  (s_zero (Fin 0) = true -> (N <> 1)%Z ->
   exp_rel_N s_zero (Fin 0) N = Fin 1).
Proof.
  split; [reflexivity |]. split; [reflexivity |].
  intros Hz HN. unfold exp_rel_N.
  destruct (Z.eqb_spec 0 N) as [<- | _].
  - simpl. rewrite exp_0. reflexivity.
  - destruct (Z.eqb_spec 1 N) as [E | _]; [congruence |].
    rewrite Hz. reflexivity.
Qed.

(** ** Regularized incomplete gamma function at the poles *)

Lemma Rabs_le_bounds (x y : R) : Rabs x <= y -> - y <= x <= y.
Proof. unfold Rabs. destruct (Rcase_abs x); lra. Qed.

Lemma nearest_close (r : R) : Rabs (r - IZR (nearest (Fin r))) <= / 2.
Proof.
  unfold nearest. rewrite minus_IZR.
  destruct (archimed (r + / 2)) as [H1 H2].
  apply Rabs_le. lra.
Qed.

Lemma round_to_pole (round : fp -> Z) (a : R) (n : Z) :
  (forall r, Rabs r < IZR (2 ^ 31) ->
             Rabs (r - IZR (round (Fin r))) <= / 2) ->
  (0 <= n < 2 ^ 31)%Z ->
  Rabs (a + IZR n) < 1e-4 ->
  round (Fin a) = (- n)%Z.
Proof.
  intros Hround Hn Hnear.
  apply Rabs_def2 in Hnear.
  assert (Ha : Rabs a < IZR (2 ^ 31)).
  { assert (H0 : 0 <= IZR n) by (apply IZR_le; lia).
    assert (H1 : IZR n <= IZR (2 ^ 31 - 1)) by (apply IZR_le; lia).
    rewrite minus_IZR in H1.
    apply Rabs_def1; lra. }
  specialize (Hround a Ha).
  apply Rabs_le_bounds in Hround.
  assert (H1 : (-1 < round (Fin a) + n)%Z).
  { apply lt_IZR. rewrite plus_IZR. lra. }
  assert (H2 : (round (Fin a) + n < 1)%Z).
  { apply lt_IZR. rewrite plus_IZR. lra. }
  lia.
Qed.

(** C8.  When [a] is within [1e-4] of a non-positive integer [-n],
    [gamma_star (a, x)] is the closed form [1 / x^n], in which neither
    series takes part; and [gamma_star (n, x)] with [n <= 0] is
    [1 / x^|n|].  Here [n] ranges over the values of an [int], and
    [round] is taken to return the nearest integer on that range. *)
Theorem gamma_star_at_pole
  (isint : fp -> bool) (round : fp -> Z) (tgamma : fp -> fp)
  (a : R) (n : Z) (x : fp) :
  (forall r, Rabs r < IZR (2 ^ 31) ->
             Rabs (r - IZR (round (Fin r))) <= / 2) ->
  (0 <= n < 2 ^ 31)%Z ->
  Rabs (a + IZR n) < 1e-4 ->
  gamma_star isint round tgamma (Fin a) x
    = fdiv (Fin 1) (fpow x (Z.to_nat n)) /\
  gamma_star_int tgamma (- n) x
    = fdiv (Fin 1) (fpow x (Z.abs_nat (- n))).
Proof.
  intros Hround Hn Hnear. split.
  - unfold gamma_star.
    rewrite (round_to_pole round a n Hround Hn Hnear).
    replace (flt _ (Fin 1e-4)) with true.
    + rewrite orb_true_r.
      destruct (Z.leb_spec (- n) 0) as [_ | H]; [| lia].
      rewrite Zabs2Nat.abs_nat_spec, Z.abs_opp, Z.abs_eq by lia.
      reflexivity.
    + symmetry. simpl. apply Rltb_true.
      rewrite opp_IZR.
      replace (a + - - IZR n) with (a + IZR n) by lra. assumption.
  - unfold gamma_star_int.
    destruct (Z.leb_spec (- n) 0) as [_ | H]; [reflexivity | lia].
Qed.

Lemma gamma_star_at_pole_witness :
  gamma_star exact_isint nearest (fun _ => NaN) (Fin (-2)) (Fin 3)
    = fdiv (Fin 1) (fpow (Fin 3) (Z.to_nat 2)) /\
  gamma_star_int (fun _ => NaN) (- (2)) (Fin 3)
    = fdiv (Fin 1) (fpow (Fin 3) (Z.abs_nat (- (2)))).
Proof.
  apply (gamma_star_at_pole exact_isint nearest (fun _ => NaN)
           (-2) 2 (Fin 3)).
  - intros r _. apply nearest_close.
  - lia.
  - replace (-2 + 2) with 0 by lra. rewrite Rabs_R0. lra.
Defined.

(** ** Two-body phase space *)

Lemma triangle_fin (a b c : R) :
  triangle (Fin a) (Fin b) (Fin c)
  = Fin (a * a + b * b + c * c - 2 * a * b - 2 * b * c - 2 * a * c).
Proof. unfold triangle; simpl. f_equal. Qed.

Lemma fmax_0_1 : fmax (Fin 0) (Fin 1) = Fin 1.
Proof. unfold fmax; simpl. rewrite Rltb_true by lra. reflexivity. Qed.

(** C9.  [phasespace2 (x, m1, m2)] is 0 whenever [x <= m1 + m2] for
    the masses clamped at 0; [phasespace2 (1.5, 1, 1)] is 0, and
    [phasespace2 (3, 1, 1)] is a positive finite value. *)
Theorem phasespace2_threshold :
  (forall x m1 m2 : fp,
      fle x (fadd (fmax (Fin 0) m1) (fmax (Fin 0) m2)) = true ->
      phasespace2 x m1 m2 = Fin 0) /\
  phasespace2 (Fin 1.5) (Fin 1) (Fin 1) = Fin 0 /\
  (exists v : R, phasespace2 (Fin 3) (Fin 1) (Fin 1) = Fin v /\ 0 < v).
Proof.
  split; [| split].
  - intros x m1 m2 H. unfold phasespace2. rewrite H. reflexivity.
  - unfold phasespace2. rewrite fmax_0_1.
    replace (fle _ _) with true; [reflexivity |].
    symmetry. unfold fle; simpl. rewrite Rltb_true by lra. reflexivity.
  - exists (1 / (8 * PI) * sqrt 45 / (3 * 3)).
    assert (HPI := PI_RGT_0).
    split.
    + unfold phasespace2. rewrite fmax_0_1.
      replace (fle _ _) with false.
      * cbv zeta.
        replace (fmul (Fin 3) (Fin 3)) with (Fin (3 * 3)) by reflexivity.
        replace (fmul (Fin 1) (Fin 1)) with (Fin (1 * 1)) by reflexivity.
        rewrite triangle_fin.
        replace (3 * 3 * (3 * 3) + 1 * 1 * (1 * 1) + 1 * 1 * (1 * 1)
                 - 2 * (3 * 3) * (1 * 1) - 2 * (1 * 1) * (1 * 1)
                 - 2 * (3 * 3) * (1 * 1)) with 45 by lra.
        unfold s_inv8pi; simpl.
        rewrite (Rltb_true 0 45) by lra.
        rewrite (Reqb_false (8 * PI)) by lra.
        rewrite (Rltb_false 45 0) by lra.
        simpl. rewrite (Reqb_false (3 * 3)) by lra.
        reflexivity.
      * symmetry. unfold fle; simpl.
        rewrite Rltb_false by lra. rewrite Reqb_false by lra. reflexivity.
    + assert (0 < sqrt 45) by (apply sqrt_lt_R0; lra).
      apply Rdiv_lt_0_compat; [| lra].
      apply Rmult_lt_0_compat; [| assumption].
      apply Rdiv_lt_0_compat; lra.
Qed.

Lemma phasespace2_threshold_witness :
  phasespace2 (Fin 2) (Fin 1) (Fin 1) = Fin 0.
Proof.
  apply (proj1 phasespace2_threshold (Fin 2) (Fin 1) (Fin 1)).
  rewrite fmax_0_1. unfold fle; simpl.
  rewrite Reqb_true by lra. apply orb_true_r.
Defined.

(** ** Partial sums of the exponential and the overflow clamp *)



Lemma DBL_MAX_pos : 0 < DBL_MAX.
Proof. unfold DBL_MAX. apply IZR_lt. reflexivity. Qed.




(** ** Pochhammer symbol *)

(** The rising factorial peels off its first factor, reflects to
    positive arguments, and splits into its even and odd factors. *)
Lemma rising_front (y : R) (n : nat) :
  rising y (S n) = y * rising (y + 1) n.
Proof.
  induction n as [| n IH].
  - simpl. lra.
  - change (rising y (S (S n))) with (rising y (S n) * (y + INR (S n))).
    rewrite IH.
    change (rising (y + 1) (S n)) with (rising (y + 1) n * (y + 1 + INR n)).
    rewrite S_INR. ring.
Qed.

Lemma rising_reflect (x : R) (n : nat) :
  rising x n = (-1) ^ n * rising (- x - INR n + 1) n.
Proof.
  revert x. induction n as [| n IH]; intros x.
  - simpl. lra.
  - rewrite (rising_front (- x - INR (S n) + 1)).
    change (rising x (S n)) with (rising x n * (x + INR n)).
    rewrite (IH x). rewrite S_INR.
    replace (- x - (INR n + 1) + 1 + 1) with (- x - INR n + 1) by ring.
    simpl pow. ring.
Qed.

Lemma rising_double (x : R) (k : nat) :
  rising x (2 * k)
    = rising (x / 2) k * 2 ^ k * (rising ((x + 1) / 2) k * 2 ^ k) /\
  rising x (S (2 * k))
    = rising (x / 2) (S k) * 2 ^ S k * (rising ((x + 1) / 2) k * 2 ^ k).
Proof.
  induction k as [| k [IHe IHo]].
  - simpl. split; lra.
  - assert (He : rising x (2 * S k)
      = rising (x / 2) (S k) * 2 ^ S k * (rising ((x + 1) / 2) (S k) * 2 ^ S k)).
    { replace (2 * S k)%nat with (S (S (2 * k))) by lia.
      change (rising x (S (S (2 * k))))
        with (rising x (S (2 * k)) * (x + INR (S (2 * k)))).
      rewrite IHo.
      change (rising ((x + 1) / 2) (S k))
        with (rising ((x + 1) / 2) k * ((x + 1) / 2 + INR k)).
      rewrite S_INR, mult_INR. simpl INR. simpl pow. field. }
    split; [exact He |].
    change (rising x (S (2 * S k)))
      with (rising x (2 * S k) * (x + INR (2 * S k))).
    rewrite He.
    change (rising (x / 2) (S (S k)))
      with (rising (x / 2) (S k) * (x / 2 + INR (S k))).
    rewrite mult_INR. simpl INR at 1. simpl pow. field.
Qed.

Lemma rising_at_zero (n : nat) : rising 0 (S n) = 0.
Proof. rewrite rising_front. lra. Qed.

Lemma ldexp_half (x : R) : ldexp (Fin x) (-1) = Fin (x / 2).
Proof. unfold ldexp; simpl. f_equal. field. Qed.

Lemma ldexp_nat (a : R) (k : nat) :
  ldexp (Fin a) (Z.of_nat k) = Fin (a * 2 ^ k).
Proof. unfold ldexp; simpl. rewrite <- pow_powerRZ. reflexivity. Qed.

Lemma parity_sign_pow (n : nat) :
  parity_sign (Z.of_nat n) = Fin ((-1) ^ n).
Proof.
  unfold parity_sign.
  destruct (Nat.Even_or_Odd n) as [[k ->] | [k ->]].
  - replace (Z.of_nat (2 * k) mod 2 =? 0)%Z with true
      by (symmetry; apply Z.eqb_eq; divlia).
    rewrite pow_1_even. reflexivity.
  - replace (Z.of_nat (2 * k + 1) mod 2 =? 0)%Z with false
      by (symmetry; apply Z.eqb_neq; divlia).
    replace (2 * k + 1)%nat with (S (2 * k)) by lia.
    rewrite pow_1_odd. reflexivity.
Qed.

Section PochhammerSmall.

Variable s_zero : fp -> bool.
Variable round : fp -> Z.
Variable lgamma : fp -> fp.
Variable Pochhammer_ : Z -> fp -> fp.

Hypothesis s_zero_sound : forall r, s_zero (Fin r) = true -> r = 0.
Hypothesis Pochhammer_closed :
  forall N r, (2 <= N <= 16)%Z ->
              Pochhammer_ N (Fin r) = Fin (rising r (Z.to_nat N)).

Local Abbreviation poch := (_pochhammer_ s_zero round lgamma Pochhammer_).

Lemma _pochhammer_halves (n : nat) (y : R) (f : nat) :
  (16 < n <= 96)%nat ->
  (forall k, (k < n)%nat -> forall x fuel, (k + 2 <= fuel)%nat ->
     poch fuel (Fin x) (Z.of_nat k) = Some (Fin (rising x k))) ->
  (n <= f)%nat ->
  ~ y < 0.5 - IZR (Z.of_nat n) ->
  poch (S f) (Fin y) (Z.of_nat n) = Some (Fin (rising y n)).
Proof.
  intros Hn IH Hf Hy. cbn [_pochhammer_].
  destruct (Z.eqb_spec 0 (Z.of_nat n)) as [E | _]; [lia |].
  destruct (Z.eqb_spec 1 (Z.of_nat n)) as [E | _]; [lia |].
  replace ((2 <=? Z.of_nat n)%Z && (Z.of_nat n <=? 16)%Z) with false
    by (symmetry; apply andb_false_iff; right; apply Z.leb_gt; lia).
  destruct (s_zero (Fin y)) eqn:Ez.
  { apply s_zero_sound in Ez. subst y.
    destruct n as [| m]; [lia |]. rewrite rising_at_zero. reflexivity. }
  replace (flt (Fin y) (fsub (Fin 0.5) (of_Z (Z.of_nat n)))) with false
    by (symmetry; simpl; apply Rltb_false; lra).
  replace (Z.of_nat n <=? 96)%Z with true
    by (symmetry; apply Z.leb_le; lia).
  cbn [orb]. rewrite ldexp_half. cbn [fadd]. rewrite ldexp_half.
  destruct (Nat.Even_or_Odd n) as [[k ->] | [k ->]].
  - replace (Z.of_nat (2 * k) mod 2 =? 0)%Z with true
      by (symmetry; apply Z.eqb_eq; divlia).
    replace (Z.of_nat (2 * k) / 2)%Z with (Z.of_nat k) by divlia.
    do 2 (rewrite IH by lia).
    rewrite !ldexp_nat. cbn [fmul].
    rewrite (proj1 (rising_double y k)). reflexivity.
  - replace (Z.of_nat (2 * k + 1) mod 2 =? 0)%Z with false
      by (symmetry; apply Z.eqb_neq; divlia).
    replace (Z.of_nat (2 * k + 1) / 2)%Z with (Z.of_nat k) by divlia.
    replace (Z.of_nat k + 1)%Z with (Z.of_nat (S k)) by lia.
    do 2 (rewrite IH by lia).
    rewrite !ldexp_nat. cbn [fmul].
    replace (2 * k + 1)%nat with (S (2 * k)) by lia.
    rewrite (proj2 (rising_double y k)). reflexivity.
Qed.

Lemma reflected_argument (x : R) (n : nat) :
  (1 <= n)%nat ->
  x <= 0.5 - IZR (Z.of_nat n) ->
  Rabs x + - IZR (Z.of_nat n) + 1 = - x - INR n + 1 /\
  0.5 <= - x - INR n + 1.
Proof.
  intros Hn H. rewrite <- INR_IZR_INZ in *.
  apply le_INR in Hn. simpl in Hn.
  rewrite Rabs_left by lra. split; lra.
Qed.

Lemma _pochhammer_small (n : nat) :
  (n <= 96)%nat ->
  forall x fuel, (n + 2 <= fuel)%nat ->
    poch fuel (Fin x) (Z.of_nat n) = Some (Fin (rising x n)).
Proof.
  induction n as [n IH] using lt_wf_ind. intros Hn x fuel Hfuel.
  destruct fuel as [| f]; [lia |].
  destruct (le_lt_dec n 16) as [Hsmall | Hbig].
  - cbn [_pochhammer_].
    destruct (Z.eqb_spec 0 (Z.of_nat n)) as [E | N0].
    { replace n with 0%nat by lia. reflexivity. }
    destruct (Z.eqb_spec 1 (Z.of_nat n)) as [E | N1].
    { replace n with 1%nat by lia. simpl. do 2 f_equal. lra. }
    replace ((2 <=? Z.of_nat n)%Z && (Z.of_nat n <=? 16)%Z) with true
      by (symmetry; apply andb_true_iff; split; apply Z.leb_le; lia).
    rewrite Pochhammer_closed by lia. rewrite Nat2Z.id. reflexivity.
  - assert (IH' : forall k, (k < n)%nat -> forall x fuel,
               (k + 2 <= fuel)%nat ->
               poch fuel (Fin x) (Z.of_nat k) = Some (Fin (rising x k))).
    { intros k Hk. apply IH; lia. }
    destruct (Rlt_dec x (0.5 - IZR (Z.of_nat n))) as [Hrefl | Hnorefl].
    + cbn [_pochhammer_].
      destruct (Z.eqb_spec 0 (Z.of_nat n)) as [E | _]; [lia |].
      destruct (Z.eqb_spec 1 (Z.of_nat n)) as [E | _]; [lia |].
      replace ((2 <=? Z.of_nat n)%Z && (Z.of_nat n <=? 16)%Z) with false
        by (symmetry; apply andb_false_iff; right; apply Z.leb_gt; lia).
      assert (Hn17 : 17 <= IZR (Z.of_nat n)) by (apply IZR_le; lia).
      destruct (s_zero (Fin x)) eqn:Ez.
      { apply s_zero_sound in Ez. lra. }
      replace (flt (Fin x) (fsub (Fin 0.5) (of_Z (Z.of_nat n)))) with true
        by (symmetry; simpl; apply Rltb_true; lra).
      cbn [fabs fsub fadd fneg of_Z].
      destruct (reflected_argument x n ltac:(lia) ltac:(lra)) as [-> Hpos].
      destruct f as [| f']; [lia |].
      rewrite (_pochhammer_halves n _ f') by
        (try lia; try assumption; rewrite <- INR_IZR_INZ in *; lra).
      cbn [option_map]. rewrite parity_sign_pow. cbn [fmul].
      rewrite (rising_reflect x n). do 2 f_equal. ring.
    + apply _pochhammer_halves; try assumption; lia.
Qed.

(** Up to [N = 96] the closed forms, the reflection and the
    duplication reproduce the product [x (x+1) ... (x+N-1)]. *)
Lemma pochhammer_product_small_N (N : Z) (x : R) (fuel : nat) :
  (0 <= N <= 96)%Z ->
  (Z.to_nat N + 2 <= fuel)%nat ->
  pochhammer s_zero round lgamma Pochhammer_ fuel (Fin x) N
    = Some (Fin (rising x (Z.to_nat N))) /\
  rising_factorial s_zero round lgamma Pochhammer_ fuel (Fin x) N
    = Some (Fin (rising x (Z.to_nat N))).
Proof.
  intros HN Hfuel.
  assert (H : __pochhammer__ s_zero round lgamma Pochhammer_ fuel (Fin x) N
              = Some (Fin (rising x (Z.to_nat N)))); [| split; exact H].
  rewrite <- (Z2Nat.id N) at 1 by lia.
  set (n := Z.to_nat N) in *.
  assert (Hn : (n <= 96)%nat) by lia.
  unfold __pochhammer__.
  destruct (Z.eqb_spec 0 (Z.of_nat n)) as [E | N0].
  { replace n with 0%nat by lia. reflexivity. }
  destruct (Z.eqb_spec 1 (Z.of_nat n)) as [E | N1].
  { replace n with 1%nat by lia. simpl. do 2 f_equal. lra. }
  assert (Hn2 : 2 <= IZR (Z.of_nat n)) by (apply IZR_le; lia).
  destruct (s_zero (Fin x)) eqn:Ez.
  { apply s_zero_sound in Ez. subst x.
    destruct n as [| m]; [lia |]. rewrite rising_at_zero. reflexivity. }
  cbn [flt fsub fadd fneg fabs of_Z].
  destruct (Rlt_dec (0.5 + - IZR (Z.of_nat n)) x) as [Hgt | Hle].
  - rewrite (Rltb_true _ _ Hgt). apply _pochhammer_small; assumption.
  - rewrite (Rltb_false _ _ Hle).
    destruct (reflected_argument x n ltac:(lia) ltac:(lra)) as [-> Hpos].
    rewrite _pochhammer_small by assumption.
    cbn [option_map]. rewrite parity_sign_pow. cbn [fmul].
    rewrite (rising_reflect x n). do 2 f_equal. ring.
Qed.

End PochhammerSmall.

Lemma rising_half_negative (n : nat) : rising (- / 2) (S n) < 0.
Proof.
  induction n as [| n IH].
  - simpl. lra.
  - change (rising (- / 2) (S (S n)))
      with (rising (- / 2) (S n) * (- / 2 + INR (S n))).
    assert (1 <= INR (S n)).
    { rewrite S_INR. pose proof (pos_INR n). lra. }
    nra.
Qed.

Lemma fexp_not_negative (y : fp) (r : R) : r < 0 -> fexp y <> Fin r.
Proof.
  intros Hr. destruct y as [q | | |]; simpl; try discriminate.
  - intros E. injection E as E. pose proof (exp_pos q). lra.
  - intros E. injection E as E. lra.
Qed.

Lemma half_not_near_integer (k : Z) :
  flt (fabs (fsub (Fin (- / 2)) (of_Z k))) s_delta = false.
Proof.
  unfold s_delta; simpl. apply Rltb_false.
  assert (H : (k <= -1)%Z \/ (0 <= k)%Z) by lia.
  destruct H as [H | H]; apply IZR_le in H.
  - rewrite Rabs_right by lra. lra.
  - rewrite Rabs_left by lra. lra.
Qed.

(** C1, at the input [(-0.5, 97)]: neither the closed forms, nor the
    reflection, nor the duplication apply, and the value is
    [exp (lgamma (x + N) - lgamma (x))], which is never negative,
    while the product [x (x+1) ... (x+96)] is. *)
Theorem pochhammer_generic_branch
  (s_zero : fp -> bool) (round : fp -> Z) (lgamma : fp -> fp)
  (Pochhammer_ : Z -> fp -> fp) (fuel : nat) :
  s_zero (Fin (- / 2)) = false ->
  pochhammer s_zero round lgamma Pochhammer_ (S fuel) (Fin (- / 2)) 97
    = Some (fexp (fsub (lgamma (fadd (Fin (- / 2)) (of_Z 97)))
                       (lgamma (Fin (- / 2))))) /\
  rising (- / 2) 97 < 0 /\
  pochhammer s_zero round lgamma Pochhammer_ (S fuel) (Fin (- / 2)) 97
    <> Some (Fin (rising (- / 2) 97)).
Proof.
  intros Hz.
  assert (Hneg : rising (- / 2) 97 < 0) by apply rising_half_negative.
  assert (Hval :
    pochhammer s_zero round lgamma Pochhammer_ (S fuel) (Fin (- / 2)) 97
    = Some (fexp (fsub (lgamma (fadd (Fin (- / 2)) (of_Z 97)))
                       (lgamma (Fin (- / 2)))))).
  { unfold pochhammer, __pochhammer__.
    change (0 =? 97)%Z with false. change (1 =? 97)%Z with false.
    rewrite Hz. cbv iota.
    replace (flt (fsub (Fin 0.5) (of_Z 97)) (Fin (- / 2))) with true.
    2:{ symmetry. simpl. apply Rltb_true. lra. }
    cbn [_pochhammer_].
    change (0 =? 97)%Z with false. change (1 =? 97)%Z with false.
    change ((2 <=? 97)%Z && (97 <=? 16)%Z) with false.
    rewrite Hz. cbv iota.
    replace (flt (Fin (- / 2)) (fsub (Fin 0.5) (of_Z 97))) with false.
    2:{ symmetry. simpl. apply Rltb_false. lra. }
    rewrite half_not_near_integer, andb_false_r.
    change (97 <=? 96)%Z with false. reflexivity. }
  split; [exact Hval |]. split; [exact Hneg |].
  rewrite Hval. intros E. injection E as E.
  exact (fexp_not_negative _ _ Hneg E).
Qed.

Lemma exact_zero_nonzero (r : R) : r <> 0 -> exact_zero (Fin r) = false.
Proof. intros H. unfold exact_zero; simpl. apply Reqb_false. assumption. Qed.

Lemma pochhammer_generic_branch_witness :
  pochhammer exact_zero nearest (fun _ => Fin 0) product_form 1
    (Fin (- / 2)) 97
  <> Some (Fin (rising (- / 2) 97)).
Proof.
  apply (pochhammer_generic_branch exact_zero nearest (fun _ => Fin 0)
           product_form 0).
  apply exact_zero_nonzero. lra.
Defined.

(** * Further properties *)

(** ** Kinematics *)

Lemma triangle_of_squares (x m1 m2 : R) :
  triangle (Fin (x * x)) (Fin (m1 * m1)) (Fin (m2 * m2))
  = Fin ((x - m1 - m2) * (x + m1 + m2) * (x + m1 - m2) * (x - m1 + m2)).
Proof. rewrite triangle_fin. f_equal. ring. Qed.


Lemma fmax_0_fin (m : R) : fmax (Fin 0) (Fin m) = Fin (Rmax 0 m).
Proof.
  unfold fmax; simpl. unfold Rltb, Rmax.
  destruct (Rlt_dec 0 m), (Rle_dec 0 m); try reflexivity; try lra.
  f_equal; lra.
Qed.

Lemma kallen_pos (x a b : R) :
  0 <= a -> 0 <= b -> a + b < x ->
  0 < (x - a - b) * (x + a + b) * (x + a - b) * (x - a + b).
Proof.
  intros Ha Hb Hx.
  assert (0 < x - a - b) by lra.
  assert (0 < x + a + b) by lra.
  assert (0 < x + a - b) by lra.
  assert (0 < x - a + b) by lra.
  repeat apply Rmult_lt_0_compat; assumption.
Qed.

Lemma fle_fin (a b : R) : fle (Fin a) (Fin b) = true <-> a <= b.
Proof.
  unfold fle; simpl. unfold Rltb, Reqb.
  destruct (Rlt_dec a b), (Req_dec_T a b); simpl; split; intros; 
    try reflexivity; try lra; try discriminate.
Qed.



Lemma half_decimal : 0.5 = / 2.
Proof. lra. Qed.

(** X3.  In every case [phasespace2_bk] is [4 pi^2] times
    [phasespace2]: the two normalisations differ by that factor and
    vanish together. *)
Theorem phasespace2_bk_ratio (x m1 m2 : R) :
  phasespace2_bk (Fin x) (Fin m1) (Fin m2)
  = fmul (Fin (4 * PI * PI)) (phasespace2 (Fin x) (Fin m1) (Fin m2)).
Proof.
  assert (HPI := PI_RGT_0).
  unfold phasespace2_bk, phasespace2. rewrite !fmax_0_fin.
  set (a := Rmax 0 m1). set (b := Rmax 0 m2).
  assert (Ha : 0 <= a) by apply Rmax_l.
  assert (Hb : 0 <= b) by apply Rmax_l.
  cbn [fadd].
  destruct (fle (Fin x) (Fin (a + b))) eqn:Ethr.
  - simpl. f_equal. ring.
  - assert (Hx : a + b < x).
    { destruct (Rlt_dec (a + b) x) as [H | H]; [exact H |].
      assert (E : fle (Fin x) (Fin (a + b)) = true) by (apply fle_fin; lra).
      congruence. }
    cbn [fmul].
    rewrite (triangle_of_squares x a b).
    assert (Hl := kallen_pos x a b Ha Hb Hx).
    cbn [flt]. rewrite (Rltb_true _ _ Hl).
    unfold s_inv8pi. cbn [fmul fdiv fsqrt].
    rewrite (Reqb_false (8 * PI)) by lra.
    rewrite Rltb_false by lra.
    cbn [fmul fdiv]. rewrite (Reqb_false (x * x)) by nra.
    cbn [fmul]. f_equal. rewrite half_decimal. field. split; nra.
Qed.


Lemma sum_squares_zero (x y z : R) :
  x * x + y * y + z * z <= 0 -> x = 0 /\ y = 0 /\ z = 0.
Proof. intros H. repeat split; nra. Qed.



Lemma fneg_inf_times (pos : bool) (r : R) :
  fneg (inf_times pos r) = inf_times pos (- r).
Proof.
  unfold inf_times, Rltb.
  destruct (Rlt_dec 0 r), (Rlt_dec r 0), (Rlt_dec 0 (- r)),
    (Rlt_dec (- r) 0), pos; try reflexivity; lra.
Qed.

(** X7.  The Armenteros-Podolanski variable changes sign when the two
    daughters are exchanged. *)
Theorem armenterosPodolanskiX_antisymmetric (ax ay az bx by_ bz : R) :
  armenterosPodolanskiX (vec3 bx by_ bz) (vec3 ax ay az)
  = fneg (armenterosPodolanskiX (vec3 ax ay az) (vec3 bx by_ bz)).
Proof.
  unfold armenterosPodolanskiX, vec3, Mag2, vadd.
  cbn [vX vY vZ fmul fadd fsub fneg].
  replace ((bx + ax) * (bx + ax) + (by_ + ay) * (by_ + ay)
           + (bz + az) * (bz + az))
    with ((ax + bx) * (ax + bx) + (ay + by_) * (ay + by_)
          + (az + bz) * (az + bz)) by ring.
  set (d := (ax + bx) * (ax + bx) + (ay + by_) * (ay + by_)
            + (az + bz) * (az + bz)).
  cbn [fdiv].
  destruct (Req_dec_T d 0) as [E | E].
  - rewrite !(Reqb_true _ _ E). rewrite fneg_inf_times. f_equal. ring.
  - rewrite !(Reqb_false _ _ E). cbn [fneg]. f_equal. field. exact E.
Qed.

(** ** Four-vectors *)

Lemma fmul_comm (x y : fp) : fmul x y = fmul y x.
Proof. destruct x, y; simpl; try reflexivity. f_equal. ring. Qed.

Lemma Dot4_symmetric (p q : LorentzVector) : Dot4 p q = Dot4 q p.
Proof.
  unfold Dot4.
  rewrite (fmul_comm (lE p)), (fmul_comm (lX p)), (fmul_comm (lY p)),
    (fmul_comm (lZ p)). reflexivity.
Qed.

(** X8.  The decay angle is symmetric under the exchange of [P] and [D],
    for all four-vectors, finite or not. *)
Theorem decayAngle_symmetric (P Q D : LorentzVector) :
  decayAngle P Q D = decayAngle D Q P.
Proof.
  unfold decayAngle.
  rewrite (Dot4_symmetric D P), (Dot4_symmetric D Q), (Dot4_symmetric Q P).
  rewrite (fmul_comm (fsub (fmul (Dot4 Q D) (Dot4 Q D)) _)).
  rewrite (fmul_comm (Dot4 Q D) (Dot4 P Q)).
  reflexivity.
Qed.



Lemma Dot4_fin (x y z e x' y' z' e' : R) :
  Dot4 (vec4 x y z e) (vec4 x' y' z' e')
  = Fin (e * e' - x * x' - y * y' - z * z').
Proof. unfold Dot4, vec4; simpl. reflexivity. Qed.


(** ** The kinematical function [G] and the Gram determinants *)


(** X11.  The three-pair Gram function is the determinant of the matrix of
    scalar products only up to the term [a12 a23 (a21 - a31)]: its
    second product takes [a21] where the determinant has [a31]. *)
Theorem Gram_G3_determinant
  (prod : LorentzVector -> LorentzVector -> fp)
  (p1 p2 p3 q1 q2 q3 : LorentzVector)
  (a11 a12 a13 a21 a22 a23 a31 a32 a33 : R) :
  prod p1 q1 = Fin a11 -> prod p1 q2 = Fin a12 -> prod p1 q3 = Fin a13 ->
  prod p2 q1 = Fin a21 -> prod p2 q2 = Fin a22 -> prod p2 q3 = Fin a23 ->
  prod p3 q1 = Fin a31 -> prod p3 q2 = Fin a32 -> prod p3 q3 = Fin a33 ->
  Gram_G3 prod p1 p2 p3 q1 q2 q3
  = Fin (det3 a11 a12 a13 a21 a22 a23 a31 a32 a33
         + a12 * a23 * (a21 - a31)).
Proof.
  intros H11 H12 H13 H21 H22 H23 H31 H32 H33.
  unfold Gram_G3. rewrite H11, H12, H13, H21, H22, H23, H31, H32, H33.
  simpl. f_equal. unfold det3. ring.
Qed.

Lemma Gram_G3_determinant_witness :
  Gram_G3 Dot4 (vec4 0 0 0 1) (vec4 1 0 0 2) (vec4 0 1 0 3)
               (vec4 0 0 0 1) (vec4 1 0 0 2) (vec4 0 1 0 3)
  = Fin (det3 1 2 3 2 3 6 3 6 8 + 2 * 6 * (2 - 3)).
Proof.
  apply (Gram_G3_determinant Dot4
           (vec4 0 0 0 1) (vec4 1 0 0 2) (vec4 0 1 0 3)
           (vec4 0 0 0 1) (vec4 1 0 0 2) (vec4 0 1 0 3));
    rewrite Dot4_fin; f_equal; ring.
Defined.

(** ** Factorial, partial sums and the integrals built on them *)










(** ** Reduced exponent: sign *)

Lemma exp_gt_1 (x : R) : 0 < x -> 1 < exp x.
Proof. intros H. rewrite <- exp_0. apply exp_increasing. assumption. Qed.

Lemma exp_lt_1 (x : R) : x < 0 -> exp x < 1.
Proof. intros H. rewrite <- exp_0. apply exp_increasing. assumption. Qed.

(** X14.  [exprel] is finite and positive at every finite [x] but 0, on
    its sentinel branches as well. *)
Theorem exprel_positive (x : R) :
  x <> 0 -> exists v, exprel (Fin x) = Fin v /\ 0 < v.
Proof.
  intros Hx. unfold exprel, fgt. cbn [flt].
  destruct (Rlt_dec x GSL_LOG_DBL_MIN) as [Hlo | Hlo].
  - rewrite (Rltb_true _ _ Hlo). cbn [fdiv].
    rewrite Reqb_false by assumption.
    exists (-1 / x). split; [reflexivity |].
    assert (x < 0) by (unfold GSL_LOG_DBL_MIN in Hlo; lra).
    replace (-1 / x) with (/ - x) by (field; lra).
    apply Rinv_0_lt_compat. lra.
  - rewrite (Rltb_false _ _ Hlo).
    destruct (Rlt_dec GSL_LOG_DBL_MAX x) as [Hhi | Hhi].
    + rewrite (Rltb_true _ _ Hhi). unfold s_infinity.
      eexists. split; [reflexivity |].
      pose proof DBL_MAX_pos. lra.
    + rewrite (Rltb_false _ _ Hhi).
      exists ((exp x - 1) / x).
      split.
      * destruct (flt (fabs (Fin x)) (Fin 1)); cbn [fexpm1 fexp fsub fneg fadd fdiv];
          rewrite Reqb_false by assumption; reflexivity.
      * destruct (Rlt_dec 0 x) as [Hp | Hn].
        -- apply Rdiv_lt_0_compat; [pose proof (exp_gt_1 x Hp); lra | lra].
        -- assert (Hneg : x < 0) by lra.
           pose proof (exp_lt_1 x Hneg).
           replace ((exp x - 1) / x) with ((1 - exp x) / - x) by (field; lra).
           apply Rdiv_lt_0_compat; lra.
Qed.

Lemma exprel_positive_witness : exists v, exprel (Fin 1) = Fin v /\ 0 < v.
Proof. apply (exprel_positive 1). lra. Defined.

(** ** Hyperbolic secant *)

Lemma exp_sum_ge_2 (r : R) : 2 <= exp r + exp (- r).
Proof.
  rewrite exp_Ropp. pose proof (exp_pos r) as H.
  assert (Hid : exp r + / exp r - 2 = (exp r - 1) * (exp r - 1) / exp r).
  { field. lra. }
  assert (0 <= (exp r - 1) * (exp r - 1) / exp r).
  { apply Rmult_le_pos.
    - pose proof (Rle_0_sqr (exp r - 1)) as S. unfold Rsqr in S. exact S.
    - apply Rlt_le, Rinv_0_lt_compat. assumption. }
  lra.
Qed.

(** X15.  [sech] is even, and its value at a finite argument lies between
    0 and 1. *)
Theorem sech_even_bounded (r : R) :
  exists v, sech (Fin r) = Fin v /\ sech (Fin (- r)) = Fin v /\
            0 <= v <= 1.
Proof.
  unfold sech. cbn [fabs flt fneg fexp fadd].
  rewrite Rabs_Ropp, Ropp_involutive.
  destruct (Rltb 700 (Rabs r)).
  - exists 0. repeat split; lra.
  - pose proof (exp_sum_ge_2 r) as H.
    exists (2 / (exp r + exp (- r))).
    cbn [fdiv]. rewrite (Rplus_comm (exp (- r))).
    rewrite Reqb_false by lra.
    repeat split.
    + apply Rlt_le, Rdiv_lt_0_compat; lra.
    + apply (Rmult_le_reg_r (exp r + exp (- r))); [lra |].
      replace (2 / (exp r + exp (- r)) * (exp r + exp (- r))) with 2
        by (field; lra).
      lra.
Qed.

(** ** Gaussian density *)





(** ** Kummer's function *)

(** X17.  On the diagonal [a = b >= 1] Kummer's function is the
    exponential, on both sides of the switch at [|x| = 0.3] and at a
    numerically zero [x]. *)
Theorem kummer_diagonal
  (s_zero : fp -> bool) (tgamma : fp -> fp)
  (gsl_1F1 : Z -> Z -> fp -> Z * fp) (a : Z) (x : R) :
  (1 <= a)%Z ->
  (s_zero (Fin x) = true -> x = 0) ->
  kummer s_zero tgamma gsl_1F1 a a (Fin x) = Fin (exp x).
Proof.
  intros Ha Hz. unfold kummer.
  destruct (Z.eqb_spec 0 a) as [E | _]; [lia |]. cbn [orb].
  destruct (s_zero (Fin x)) eqn:Ez.
  - rewrite (Hz eq_refl), exp_0. reflexivity.
  - rewrite Z.eqb_refl.
    destruct (flt (fabs (Fin x)) (Fin 0.3)); simpl; f_equal; ring.
Qed.

Lemma kummer_diagonal_witness :
  kummer exact_zero (fun _ => NaN) (fun _ _ _ => (0%Z, NaN)) 2 2 (Fin 1)
  = Fin (exp 1).
Proof.
  apply (kummer_diagonal exact_zero (fun _ => NaN)
           (fun _ _ _ => (0%Z, NaN)) 2 1).
  - lia.
  - intros H. rewrite exact_zero_nonzero in H by lra. discriminate.
Defined.

(** ** Parity of [beta_N] *)

Lemma fneg_involutive (x : fp) : fneg (fneg x) = x.
Proof. destruct x; simpl; try reflexivity. f_equal. ring. Qed.

Lemma fadd_comm (x y : fp) : fadd x y = fadd y x.
Proof. destruct x, y; simpl; try reflexivity. f_equal. ring. Qed.

Lemma fsub_swap (x y : fp) : fsub y x = fneg (fsub x y).
Proof. destruct x, y; simpl; try reflexivity. f_equal. ring. Qed.

(** X18.  [beta_N (n, x)] is even in [x] for even [n] and odd in [x] for
    odd [n], for every argument and every zero predicate. *)
Theorem beta_N_parity (s_zero : fp -> bool) (n : Z) (x : fp) :
  beta_N s_zero n (fneg x)
  = if (0 =? n mod 2)%Z then beta_N s_zero n x
    else fneg (beta_N s_zero n x).
Proof.
  unfold beta_N. rewrite fneg_involutive.
  destruct (0 =? n mod 2)%Z.
  - apply fadd_comm.
  - apply fsub_swap.
Qed.

(** ** Continued fractions: the other two forms *)









(** *** Values on positive coefficients *)













(** ** Pochhammer symbol: termination, falling factorial, derivative *)

Lemma reflected_not_reflected (x : fp) (N : Z) :
  (1 <= N)%Z ->
  flt x (fsub (Fin 0.5) (of_Z N)) = true ->
  flt (fadd (fsub (fabs x) (of_Z N)) (Fin 1)) (fsub (Fin 0.5) (of_Z N))
  = false.
Proof.
  intros HN H. apply IZR_le in HN.
  destruct x as [r | | |]; simpl in *; try discriminate; try reflexivity.
  unfold Rltb in *.
  destruct (Rlt_dec r (0.5 + - IZR N)) as [Hr | Hr]; [| discriminate].
  destruct (Rlt_dec (Rabs r + - IZR N + 1) (0.5 + - IZR N)) as [H' | H'];
    [| reflexivity].
  rewrite Rabs_left in H' by lra. lra.
Qed.

Section PochhammerTotal.

Variable s_zero : fp -> bool.
Variable round : fp -> Z.
Variable lgamma : fp -> fp.
Variable Pochhammer_ : Z -> fp -> fp.

Local Abbreviation poch := (_pochhammer_ s_zero round lgamma Pochhammer_).

Lemma _pochhammer_returns_upto (m : nat) :
  forall (N : Z) (x : fp) (fuel : nat),
    (0 <= N)%Z -> (Z.to_nat N <= m)%nat -> (Z.to_nat N + 2 <= fuel)%nat ->
    exists v, poch fuel x N = Some v.
Proof.
  induction m as [| m IH]; intros N x fuel HN Hm Hfuel.
  - destruct fuel as [| f]; [lia |]. cbn [_pochhammer_].
    replace N with 0%Z by lia. eexists; reflexivity.
  - destruct fuel as [| f]; [lia |].
    assert (Hdirect : forall y f',
               (16 < N)%Z -> (Z.to_nat N <= f')%nat ->
               flt y (fsub (Fin 0.5) (of_Z N)) = false ->
               exists v, poch (S f') y N = Some v).
    { intros y f' Hbig Hf' Hy. cbn [_pochhammer_].
      destruct (Z.eqb_spec 0 N) as [E | _]; [lia |].
      destruct (Z.eqb_spec 1 N) as [E | _]; [lia |].
      replace ((2 <=? N)%Z && (N <=? 16)%Z) with false
        by (symmetry; apply andb_false_iff; right; apply Z.leb_gt; lia).
      destruct (s_zero y); [eexists; reflexivity |].
      rewrite Hy.
      match goal with
      | |- context [if ?c then _ else Some ?g] =>
          destruct c; [| exists g; reflexivity]
      end.
      assert (H1 : exists v, poch f' (ldexp y (-1))
                 (if (N mod 2 =? 0)%Z then (N / 2)%Z else (N / 2 + 1)%Z)
                 = Some v).
      { destruct (N mod 2 =? 0)%Z; apply IH; divlia. }
      assert (H2 : exists v, poch f' (ldexp (fadd y (Fin 1)) (-1)) (N / 2)%Z
                             = Some v).
      { apply IH; divlia. }
      destruct H1 as (v1 & ->). destruct H2 as (v2 & ->).
      eexists; reflexivity. }
    cbn [_pochhammer_].
    destruct (Z.eqb_spec 0 N) as [E | N0]; [eexists; reflexivity |].
    destruct (Z.eqb_spec 1 N) as [E | N1]; [eexists; reflexivity |].
    destruct ((2 <=? N)%Z && (N <=? 16)%Z) eqn:Esmall;
      [eexists; reflexivity |].
    assert (Hbig : (16 < N)%Z).
    { apply andb_false_iff in Esmall.
      destruct Esmall as [E | E]; apply Z.leb_gt in E; lia. }
    destruct (s_zero x) eqn:Ez; [eexists; reflexivity |].
    destruct (flt x (fsub (Fin 0.5) (of_Z N))) eqn:Ex.
    + destruct f as [| f']; [lia |].
      destruct (Hdirect (fadd (fsub (fabs x) (of_Z N)) (Fin 1)) f' Hbig
                  ltac:(lia)) as (v & ->).
      * apply reflected_not_reflected; [lia | exact Ex].
      * eexists; reflexivity.
    + destruct (Hdirect x f Hbig ltac:(lia) Ex) as (v & Hv).
      cbn [_pochhammer_] in Hv.
      destruct (Z.eqb_spec 0 N) as [E | _]; [lia |].
      destruct (Z.eqb_spec 1 N) as [E | _]; [lia |].
      rewrite Esmall, Ez, Ex in Hv. exists v. exact Hv.
Qed.

(** X23.  [pochhammer] returns for every argument and every [N >= 0]: a
    reflected argument is never reflected again, and the halves are
    shorter; [N + 2] units of fuel are enough. *)
Theorem pochhammer_returns (N : Z) (x : fp) (fuel : nat) :
  (0 <= N)%Z -> (Z.to_nat N + 2 <= fuel)%nat ->
  exists v, pochhammer s_zero round lgamma Pochhammer_ fuel x N = Some v.
Proof.
  intros HN Hfuel. unfold pochhammer, __pochhammer__.
  destruct (0 =? N)%Z; [eexists; reflexivity |].
  destruct (1 =? N)%Z; [eexists; reflexivity |].
  destruct (s_zero x); [eexists; reflexivity |].
  destruct (flt (fsub (Fin 0.5) (of_Z N)) x).
  - apply (_pochhammer_returns_upto (Z.to_nat N)); lia.
  - destruct (_pochhammer_returns_upto (Z.to_nat N) N
                (fadd (fsub (fabs x) (of_Z N)) (Fin 1)) fuel HN
                ltac:(lia) Hfuel) as (v & ->).
    eexists; reflexivity.
Qed.

End PochhammerTotal.

Lemma pochhammer_returns_witness :
  exists v, pochhammer exact_zero nearest (fun _ => Fin 0) product_form
              (Z.to_nat 200 + 2) NInf 200 = Some v.
Proof.
  apply (pochhammer_returns exact_zero nearest (fun _ => Fin 0) product_form
           200 NInf (Z.to_nat 200 + 2)); lia.
Defined.

Lemma rising_falling (x : R) (n : nat) :
  rising (- x) n * (-1) ^ n = falling x n.
Proof.
  induction n as [| n IH]; [simpl; lra |].
  change (rising (- x) (S n)) with (rising (- x) n * (- x + INR n)).
  change (falling x (S n)) with (falling x n * (x - INR n)).
  rewrite <- IH. simpl pow. ring.
Qed.

Section FallingFactorial.

Variable s_zero : fp -> bool.
Variable round : fp -> Z.
Variable lgamma : fp -> fp.
Variable Pochhammer_ : Z -> fp -> fp.

Hypothesis s_zero_sound : forall r, s_zero (Fin r) = true -> r = 0.
Hypothesis Pochhammer_closed :
  forall N r, (2 <= N <= 16)%Z ->
              Pochhammer_ N (Fin r) = Fin (rising r (Z.to_nat N)).

(** X24.  Up to [N = 96] the falling factorial is the product
    [x (x-1) ... (x-N+1)]. *)
Theorem falling_factorial_product (N : Z) (x : R) (fuel : nat) :
  (0 <= N <= 96)%Z ->
  (Z.to_nat N + 2 <= fuel)%nat ->
  falling_factorial s_zero round lgamma Pochhammer_ fuel (Fin x) N
    = Some (Fin (falling x (Z.to_nat N))).
Proof.
  intros HN Hfuel. unfold falling_factorial. cbn [fmul].
  destruct (pochhammer_product_small_N s_zero round lgamma Pochhammer_
              s_zero_sound Pochhammer_closed N (-1 * x) fuel HN Hfuel)
    as [H _].
  unfold pochhammer in H. rewrite H. cbn [option_map].
  replace (parity_sign N) with (Fin ((-1) ^ Z.to_nat N))
    by (rewrite <- parity_sign_pow, Z2Nat.id by lia; reflexivity).
  cbn [fmul]. do 2 f_equal.
  replace (-1 * x) with (- x) by ring. apply rising_falling.
Qed.

End FallingFactorial.

Lemma exact_zero_sound (r : R) : exact_zero (Fin r) = true -> r = 0.
Proof.
  unfold exact_zero; simpl. unfold Reqb.
  destruct (Req_dec_T r 0); [trivial | discriminate].
Qed.

Lemma product_form_closed (N : Z) (r : R) :
  (2 <= N <= 16)%Z -> product_form N (Fin r) = Fin (rising r (Z.to_nat N)).
Proof. reflexivity. Qed.

Lemma falling_factorial_product_witness :
  falling_factorial exact_zero nearest (fun _ => Fin 0) product_form
    (Z.to_nat 20 + 2) (Fin 3) 20
  = Some (Fin (falling 3 (Z.to_nat 20))).
Proof.
  apply (falling_factorial_product exact_zero nearest (fun _ => Fin 0)
           product_form exact_zero_sound product_form_closed 20 3
           (Z.to_nat 20 + 2)); lia.
Defined.

(** *** The derivative *)

Lemma rising_deriv_correct (n : nat) (x : R) :
  derivable_pt_lim (fun y => rising y n) x (rising_deriv x n).
Proof.
  induction n as [| n IH].
  - simpl. apply derivable_pt_lim_const.
  - cbn [rising rising_deriv].
    replace (rising_deriv x n * (x + INR n) + rising x n)
      with (rising_deriv x n * (x + INR n) + rising x n * (1 + 0)) by ring.
    apply (derivable_pt_lim_mult (fun y => rising y n) (fun y => y + INR n)).
    + exact IH.
    + apply (derivable_pt_lim_plus id (fun _ => INR n)).
      * apply derivable_pt_lim_id.
      * apply derivable_pt_lim_const.
Qed.

Lemma rising_deriv_front (y : R) (n : nat) :
  rising_deriv y (S n) = rising (y + 1) n + y * rising_deriv (y + 1) n.
Proof.
  induction n as [| n IH].
  - simpl. lra.
  - change (rising_deriv y (S (S n)))
      with (rising_deriv y (S n) * (y + INR (S n)) + rising y (S n)).
    rewrite IH, rising_front.
    cbn [rising rising_deriv]. rewrite S_INR. ring.
Qed.

Lemma rising_deriv_reflect (x : R) (n : nat) :
  rising_deriv x n = - (-1) ^ n * rising_deriv (- x - INR n + 1) n.
Proof.
  revert x. induction n as [| n IH]; intros x.
  - simpl. lra.
  - rewrite (rising_deriv_front (- x - INR (S n) + 1)).
    change (rising_deriv x (S n))
      with (rising_deriv x n * (x + INR n) + rising x n).
    rewrite (IH x), (rising_reflect x n). rewrite S_INR.
    replace (- x - (INR n + 1) + 1 + 1) with (- x - INR n + 1) by ring.
    simpl pow. ring.
Qed.

Lemma rising_deriv_double (x : R) (k : nat) :
  rising_deriv x (2 * k)
    = (rising (x / 2) k * rising_deriv ((x + 1) / 2) k
       + rising_deriv (x / 2) k * rising ((x + 1) / 2) k)
      * (2 ^ k * 2 ^ k) / 2 /\
  rising_deriv x (S (2 * k))
    = (rising (x / 2) (S k) * rising_deriv ((x + 1) / 2) k
       + rising_deriv (x / 2) (S k) * rising ((x + 1) / 2) k)
      * (2 ^ S k * 2 ^ k) / 2.
Proof.
  induction k as [| k [IHe IHo]].
  - simpl. split; lra.
  - assert (He : rising_deriv x (2 * S k)
      = (rising (x / 2) (S k) * rising_deriv ((x + 1) / 2) (S k)
         + rising_deriv (x / 2) (S k) * rising ((x + 1) / 2) (S k))
        * (2 ^ S k * 2 ^ S k) / 2).
    { replace (2 * S k)%nat with (S (S (2 * k))) by lia.
      change (rising_deriv x (S (S (2 * k))))
        with (rising_deriv x (S (2 * k)) * (x + INR (S (2 * k)))
              + rising x (S (2 * k))).
      rewrite IHo, (proj2 (rising_double x k)).
      change (rising ((x + 1) / 2) (S k))
        with (rising ((x + 1) / 2) k * ((x + 1) / 2 + INR k)).
      change (rising_deriv ((x + 1) / 2) (S k))
        with (rising_deriv ((x + 1) / 2) k * ((x + 1) / 2 + INR k)
              + rising ((x + 1) / 2) k).
      rewrite S_INR, mult_INR. simpl INR. simpl pow. field. }
    split; [exact He |].
    change (rising_deriv x (S (2 * S k)))
      with (rising_deriv x (2 * S k) * (x + INR (2 * S k))
            + rising x (2 * S k)).
    rewrite He, (proj1 (rising_double x (S k))).
    change (rising (x / 2) (S (S k)))
      with (rising (x / 2) (S k) * (x / 2 + INR (S k))).
    change (rising_deriv (x / 2) (S (S k)))
      with (rising_deriv (x / 2) (S k) * (x / 2 + INR (S k))
            + rising (x / 2) (S k)).
    rewrite mult_INR. simpl INR at 1. simpl pow. field.
Qed.

Lemma parity_int_pow (n : nat) :
  of_Z (parity_int (Z.of_nat n)) = Fin ((-1) ^ n) /\
  of_Z (-1 * parity_int (Z.of_nat n)) = Fin (- (-1) ^ n).
Proof.
  unfold parity_int, of_Z.
  destruct (Nat.Even_or_Odd n) as [[k ->] | [k ->]].
  - replace (Z.of_nat (2 * k) mod 2 =? 0)%Z with true
      by (symmetry; apply Z.eqb_eq; divlia).
    rewrite pow_1_even. split; f_equal; simpl; lra.
  - replace (Z.of_nat (2 * k + 1) mod 2 =? 0)%Z with false
      by (symmetry; apply Z.eqb_neq; divlia).
    replace (2 * k + 1)%nat with (S (2 * k)) by lia.
    rewrite pow_1_odd. split; f_equal; simpl; lra.
Qed.

Lemma ldexp_nat_pred (a : R) (n : nat) :
  (1 <= n)%nat ->
  ldexp (Fin a) (Z.of_nat n - 1) = Fin (a * (2 ^ n / 2)).
Proof.
  intros Hn. destruct n as [| m]; [lia |].
  replace (Z.of_nat (S m) - 1)%Z with (Z.of_nat m) by lia.
  rewrite ldexp_nat. f_equal. simpl pow. field.
Qed.

Lemma pow_2_double (k : nat) : 2 ^ (2 * k) = 2 ^ k * 2 ^ k.
Proof. replace (2 * k)%nat with (k + k)%nat by lia. apply pow_add. Qed.

Section PochhammerDerivative.

Variable round : fp -> Z.
Variable lgamma : fp -> fp.
Variable gsl_sf_psi_e : fp -> Z * fp.
Variable Pochhammer_vd : Z -> fp -> fp * fp.

Hypothesis Pochhammer_vd_closed :
  forall N r, (2 <= N <= 16)%Z ->
    Pochhammer_vd N (Fin r)
    = (Fin (rising r (Z.to_nat N)), Fin (rising_deriv r (Z.to_nat N))).

Local Abbreviation poch2 :=
  (_pochhammer2_ round lgamma gsl_sf_psi_e Pochhammer_vd).

Lemma _pochhammer2_halves (n : nat) (y : R) (f : nat) :
  (16 < n <= 96)%nat ->
  (forall k, (k < n)%nat -> forall x fuel, (k + 2 <= fuel)%nat ->
     poch2 fuel (Fin x) (Z.of_nat k)
     = Some (Fin (rising x k), Fin (rising_deriv x k))) ->
  (n <= f)%nat ->
  ~ y < 0.5 - IZR (Z.of_nat n) ->
  poch2 (S f) (Fin y) (Z.of_nat n)
  = Some (Fin (rising y n), Fin (rising_deriv y n)).
Proof.
  intros Hn IH Hf Hy. cbn [_pochhammer2_].
  destruct (Z.eqb_spec 0 (Z.of_nat n)) as [E | _]; [lia |].
  destruct (Z.eqb_spec 1 (Z.of_nat n)) as [E | _]; [lia |].
  replace ((2 <=? Z.of_nat n)%Z && (Z.of_nat n <=? 16)%Z) with false
    by (symmetry; apply andb_false_iff; right; apply Z.leb_gt; lia).
  replace (flt (Fin y) (fsub (Fin 0.5) (of_Z (Z.of_nat n)))) with false
    by (symmetry; simpl; apply Rltb_false; lra).
  replace (Z.of_nat n <=? 96)%Z with true
    by (symmetry; apply Z.leb_le; lia).
  cbn [orb]. rewrite ldexp_half. cbn [fadd]. rewrite ldexp_half.
  destruct (Nat.Even_or_Odd n) as [[k ->] | [k ->]].
  - replace (Z.of_nat (2 * k) mod 2 =? 0)%Z with true
      by (symmetry; apply Z.eqb_eq; divlia).
    replace (Z.of_nat (2 * k) / 2)%Z with (Z.of_nat k) by divlia.
    do 2 (rewrite IH by lia).
    cbn [fst snd fmul]. rewrite ldexp_nat, !ldexp_nat_pred by lia.
    cbn [fadd].
    rewrite (proj1 (rising_double y k)), (proj1 (rising_deriv_double y k)).
    rewrite pow_2_double. do 2 f_equal; f_equal; field.
  - replace (Z.of_nat (2 * k + 1) mod 2 =? 0)%Z with false
      by (symmetry; apply Z.eqb_neq; divlia).
    replace (Z.of_nat (2 * k + 1) / 2)%Z with (Z.of_nat k) by divlia.
    replace (Z.of_nat k + 1)%Z with (Z.of_nat (S k)) by lia.
    do 2 (rewrite IH by lia).
    cbn [fst snd fmul]. rewrite ldexp_nat, !ldexp_nat_pred by lia.
    cbn [fadd].
    replace (2 * k + 1)%nat with (S (2 * k)) by lia.
    rewrite (proj2 (rising_double y k)), (proj2 (rising_deriv_double y k)).
    change (2 ^ S (2 * k)) with (2 * 2 ^ (2 * k)).
    rewrite pow_2_double. simpl pow. do 2 f_equal; f_equal; field.
Qed.

Lemma _pochhammer2_small (n : nat) :
  (n <= 96)%nat ->
  forall x fuel, (n + 2 <= fuel)%nat ->
    poch2 fuel (Fin x) (Z.of_nat n)
    = Some (Fin (rising x n), Fin (rising_deriv x n)).
Proof.
  induction n as [n IH] using lt_wf_ind. intros Hn x fuel Hfuel.
  destruct fuel as [| f]; [lia |].
  destruct (le_lt_dec n 16) as [Hsmall | Hbig].
  - cbn [_pochhammer2_].
    destruct (Z.eqb_spec 0 (Z.of_nat n)) as [E | N0].
    { replace n with 0%nat by lia. reflexivity. }
    destruct (Z.eqb_spec 1 (Z.of_nat n)) as [E | N1].
    { replace n with 1%nat by lia. simpl. do 2 f_equal; f_equal; lra. }
    replace ((2 <=? Z.of_nat n)%Z && (Z.of_nat n <=? 16)%Z) with true
      by (symmetry; apply andb_true_iff; split; apply Z.leb_le; lia).
    rewrite Pochhammer_vd_closed by lia. rewrite Nat2Z.id. reflexivity.
  - assert (IH' : forall k, (k < n)%nat -> forall x fuel,
               (k + 2 <= fuel)%nat ->
               poch2 fuel (Fin x) (Z.of_nat k)
               = Some (Fin (rising x k), Fin (rising_deriv x k))).
    { intros k Hk. apply IH; lia. }
    destruct (Rlt_dec x (0.5 - IZR (Z.of_nat n))) as [Hrefl | Hnorefl].
    + cbn [_pochhammer2_].
      destruct (Z.eqb_spec 0 (Z.of_nat n)) as [E | _]; [lia |].
      destruct (Z.eqb_spec 1 (Z.of_nat n)) as [E | _]; [lia |].
      replace ((2 <=? Z.of_nat n)%Z && (Z.of_nat n <=? 16)%Z) with false
        by (symmetry; apply andb_false_iff; right; apply Z.leb_gt; lia).
      replace (flt (Fin x) (fsub (Fin 0.5) (of_Z (Z.of_nat n)))) with true
        by (symmetry; simpl; apply Rltb_true; lra).
      cbn [fabs fsub fadd fneg of_Z].
      destruct (reflected_argument x n ltac:(lia) ltac:(lra)) as [-> Hpos].
      destruct f as [| f']; [lia |].
      assert (Hn17 : 17 <= IZR (Z.of_nat n)) by (apply IZR_le; lia).
      rewrite (_pochhammer2_halves n _ f') by
        (try lia; try assumption; rewrite <- INR_IZR_INZ in *; lra).
      cbn [fst snd].
      rewrite (proj1 (parity_int_pow n)), (proj2 (parity_int_pow n)).
      cbn [fmul].
      rewrite (rising_reflect x n), (rising_deriv_reflect x n).
      reflexivity.
    + apply _pochhammer2_halves; try assumption; lia.
Qed.

(** X25.  Up to [N = 96], [pochhammer_with_derivative] returns the product
    [x (x+1) ... (x+N-1)] and its derivative with respect to [x]. *)
Theorem pochhammer_with_derivative_small_N (N : Z) (x : R) (fuel : nat) :
  (0 <= N <= 96)%Z ->
  (Z.to_nat N + 2 <= fuel)%nat ->
  pochhammer_with_derivative round lgamma gsl_sf_psi_e Pochhammer_vd
    fuel (Fin x) N
  = Some (Fin (rising x (Z.to_nat N)), Fin (rising_deriv x (Z.to_nat N))) /\
  derivable_pt_lim (fun y => rising y (Z.to_nat N)) x
    (rising_deriv x (Z.to_nat N)).
Proof.
  intros HN Hfuel. split; [| apply rising_deriv_correct].
  unfold pochhammer_with_derivative.
  rewrite <- (Z2Nat.id N) at 1 by lia.
  apply _pochhammer2_small; lia.
Qed.

End PochhammerDerivative.

Lemma product_form_vd_closed (N : Z) (r : R) :
  (2 <= N <= 16)%Z ->
  product_form_vd N (Fin r)
  = (Fin (rising r (Z.to_nat N)), Fin (rising_deriv r (Z.to_nat N))).
Proof. reflexivity. Qed.

Lemma pochhammer_with_derivative_small_N_witness :
  pochhammer_with_derivative nearest (fun _ => Fin 0)
    (fun _ => (0%Z, Fin 0)) product_form_vd (Z.to_nat 20 + 2) (Fin 3) 20
  = Some (Fin (rising 3 (Z.to_nat 20)), Fin (rising_deriv 3 (Z.to_nat 20))).
Proof.
  apply (pochhammer_with_derivative_small_N nearest (fun _ => Fin 0)
           (fun _ => (0%Z, Fin 0)) product_form_vd product_form_vd_closed
           20 3 (Z.to_nat 20 + 2)); lia.
Defined.

(** ** Instances *)






